(** * The diagnostic Logger of Script.js

    A shallow embedding of [class Logger] (Script.js, lines 2-130) and the
    properties its specification states about it.

    The logger mutates its own fields ([this.logs],
    [this.performanceMarks]), the browser's [localStorage] and the browser
    console, and [exportLogs] hands the browser a file.  They are gathered
    in a [World] that every method threads through a small
    state-and-exception monad, so that the [try]/[catch] around the storage
    write is visible in the model. *)

From stdpp Require Import gmap strings list fin_maps pretty.
From Stdlib Require Import ZArith Lia Ascii.
From Stdlib Require Import QArith Qround.

Open Scope string_scope.
Open Scope Z_scope.

(** ** JavaScript values the logger handles *)

(** A JavaScript number as far as the logger meets them: a clock reading or
    a difference of clock readings, counted in units of the timer's
    resolution, or [NaN], which is what arithmetic on a non-number yields. *)
Inductive number : Type :=
| Num (z : Z)
| NaN.

(** [a - b] on numbers. *)
Definition number_sub (a b : number) : number :=
  match a, b with
  | Num x, Num y => Num (x - y)
  | _, _ => NaN
  end.

(** [n >= 0]; every comparison with [NaN] is false. *)
Definition number_nonneg (n : number) : bool :=
  match n with
  | Num z => 0 <=? z
  | NaN => false
  end.

(** The free-form payload of a log call. *)
#[warnings="-register-all"]
Inductive jsval : Type :=
| JNull
| JBool (b : bool)
| JNum (n : number)
| JStr (s : string)
| JObj (fields : list (string * jsval)).

(** ToBoolean: [null], [false], [0], [NaN] and the empty string are falsy. *)
Definition truthy (v : jsval) : bool :=
  match v with
  | JNull => false
  | JBool b => b
  | JNum (Num z) => negb (z =? 0)
  | JNum NaN => false
  | JStr s => negb (String.eqb s "")
  | JObj _ => true
  end.

(** ** Data model *)

Inductive Level : Type := LDebug | LInfo | LWarn | LError | LSuccess.

(** The string each public method passes to [_log]. *)
Definition level_name (l : Level) : string :=
  match l with
  | LDebug => "debug"
  | LInfo => "info"
  | LWarn => "warn"
  | LError => "error"
  | LSuccess => "success"
  end.

Record LogEntry : Type := mkLogEntry {
  timestamp : string;
  level : Level;
  message : string;
  data : jsval;
  userAgent : string;
  url : string
}.

(** The fields set by the constructor (lines 4-13).  [minLevel] is
    [this.level], the name [level] being the entry's field.
    [performanceMarks] holds the own properties of the object literal
    [{}]; what a lookup finds through its prototype is in [marks_get]
    below. *)
Record Logger : Type := mkLogger {
  enabled : bool;
  minLevel : string;
  prefix : string;
  logToConsole : bool;
  logToStorage : bool;
  maxLogs : Z;
  logs : list LogEntry;
  performanceMarks : gmap string Z
}.

(** The [options] object: every field may be absent. *)
Record Options : Type := mkOptions {
  opt_enabled : option bool;
  opt_level : option string;
  opt_prefix : option string;
  opt_console : option bool;
  opt_storage : option bool;
  opt_maxLogs : option number
}.

Definition no_options : Options :=
  {| opt_enabled := None; opt_level := None; opt_prefix := None;
     opt_console := None; opt_storage := None; opt_maxLogs := None |}.

(** [x !== false] *)
Definition not_false (x : option bool) : bool :=
  match x with
  | Some false => false
  | _ => true
  end.

(** [x === true] *)
Definition is_true (x : option bool) : bool :=
  match x with
  | Some true => true
  | _ => false
  end.

(** [x || d] on an optional string: absent and [''] are falsy. *)
Definition string_or (x : option string) (d : string) : string :=
  match x with
  | Some s => if String.eqb s "" then d else s
  | None => d
  end.

(** [x || d] on an optional integer: absent, [0] and [NaN] are falsy. *)
Definition integer_or (x : option number) (d : Z) : Z :=
  match x with
  | Some (Num z) => if z =? 0 then d else z
  | Some NaN => d
  | None => d
  end.

(** [constructor(options = {})], lines 3-14. *)
Definition new_Logger (options : option Options) : Logger :=
  let options := default no_options options in
  {| enabled := not_false (opt_enabled options);
     minLevel := string_or (opt_level options) "info";
     prefix := string_or (opt_prefix options) "[BDWS]";
     logToConsole := not_false (opt_console options);
     logToStorage := is_true (opt_storage options);
     maxLogs := integer_or (opt_maxLogs options) 100;
     logs := [];
     performanceMarks := ∅ |}.

(** ** The browser *)

Inductive Exception : Type :=
| QuotaExceededError
| TypeError
| SecurityError.

(** One call of [console.log] (format, style, message, payload) or of
    [console.warn]. *)
Inductive ConsoleCall : Type :=
| console_log_call (fmt style msg : string) (payload : jsval)
| console_warn_call (msg : string) (e : Exception).

Record World : Type := mkWorld {
  this : Logger;
  localStorage : gmap string string;
  console : list ConsoleCall;
  downloads : list (string * string)
}.

(** What the browser answers during one method call: the wall clock, the
    monotonic clock, the two environment strings, whether
    [localStorage.setItem] throws, and whether the access to
    [localStorage] for [removeItem] throws (a browser that denies
    storage). *)
Record Env : Type := mkEnv {
  now_iso : string;
  performance_now : Z;
  navigator_userAgent : string;
  location_href : string;
  setItem_throws : bool;
  removeItem_throws : bool
}.

(** Platform functions the logger calls and this development leaves
    uninterpreted.  [JSON.stringify] throws on a cyclic payload, hence the
    option. *)
Class Host : Type := mkHost {
  toFixed2 : number -> string;
  JSON_stringify : list LogEntry -> option string;
  JSON_stringify_pretty : list LogEntry -> option string
}.

(** ** Record updates *)

Definition set_logs (ls : list LogEntry) (l : Logger) : Logger :=
  {| enabled := enabled l; minLevel := minLevel l; prefix := prefix l;
     logToConsole := logToConsole l; logToStorage := logToStorage l;
     maxLogs := maxLogs l; logs := ls;
     performanceMarks := performanceMarks l |}.

Definition set_performanceMarks (m : gmap string Z) (l : Logger) : Logger :=
  {| enabled := enabled l; minLevel := minLevel l; prefix := prefix l;
     logToConsole := logToConsole l; logToStorage := logToStorage l;
     maxLogs := maxLogs l; logs := logs l;
     performanceMarks := m |}.

Definition set_this (l : Logger) (w : World) : World :=
  {| this := l; localStorage := localStorage w; console := console w;
     downloads := downloads w |}.

Definition set_localStorage (s : gmap string string) (w : World) : World :=
  {| this := this w; localStorage := s; console := console w;
     downloads := downloads w |}.

Definition set_console (c : list ConsoleCall) (w : World) : World :=
  {| this := this w; localStorage := localStorage w; console := c;
     downloads := downloads w |}.

Definition set_downloads (d : list (string * string)) (w : World) : World :=
  {| this := this w; localStorage := localStorage w; console := console w;
     downloads := d |}.

(** ** The monad of method bodies *)

Inductive Result (A : Type) : Type :=
| Returned (a : A) (w : World)
| Thrown (e : Exception) (w : World).
Arguments Returned {A} a w.
Arguments Thrown {A} e w.

Definition M (A : Type) : Type := World -> Result A.

Definition ret {A} (a : A) : M A := fun w => Returned a w.

Definition bind {A B} (m : M A) (k : A -> M B) : M B :=
  fun w =>
    match m w with
    | Returned a w' => k a w'
    | Thrown e w' => Thrown e w'
    end.

Definition throw {A} (e : Exception) : M A := fun w => Thrown e w.

(** [try { m } catch (e) { h e }] *)
Definition try_catch {A} (m : M A) (h : Exception -> M A) : M A :=
  fun w =>
    match m w with
    | Returned a w' => Returned a w'
    | Thrown e w' => h e w'
    end.

Notation "'let*' x := m 'in' k" := (bind m (fun x => k))
  (at level 10, x name, m at level 100, k at level 200).
Notation "m ;; k" := (bind m (fun _ => k))
  (at level 100, k at level 200, right associativity).

Definition get_this : M Logger := fun w => Returned (this w) w.

Definition update_this (f : Logger -> Logger) : M unit :=
  fun w => Returned tt (set_this (f (this w)) w).

(** [if (b) { m }] *)
Definition when (b : bool) (m : M unit) : M unit :=
  if b then m else ret tt.

(** The world a call leaves behind, whether it returned or threw. *)
Definition world_of {A} (r : Result A) : World :=
  match r with
  | Returned _ w => w
  | Thrown _ w => w
  end.

(** The value a call returned, if it returned. *)
Definition value_of {A} (r : Result A) : option A :=
  match r with
  | Returned a _ => Some a
  | Thrown _ _ => None
  end.

(** ** Browser primitives *)

Definition console_log (fmt style msg : string) (payload : jsval) : M unit :=
  fun w => Returned tt (set_console (console w ++ [console_log_call fmt style msg payload]) w).

Definition console_warn (msg : string) (e : Exception) : M unit :=
  fun w => Returned tt (set_console (console w ++ [console_warn_call msg e]) w).

(** [localStorage.setItem(key, value)]: throws, leaving the store as it
    was, when the browser refuses the write. *)
Definition localStorage_setItem (env : Env) (key value : string) : M unit :=
  fun w =>
    if setItem_throws env then Thrown QuotaExceededError w
    else Returned tt (set_localStorage (<[key := value]> (localStorage w)) w).

(** [localStorage.removeItem(key)]: throws, leaving the store as it was,
    when the browser denies the access to [localStorage]. *)
Definition localStorage_removeItem (env : Env) (key : string) : M unit :=
  fun w =>
    if removeItem_throws env then Thrown SecurityError w
    else Returned tt (set_localStorage (delete key (localStorage w)) w).

(** The Blob, the object URL and the clicked link of [exportLogs], lines
    122-127: the browser is handed a file name and its content. *)
Definition download (filename content : string) : M unit :=
  fun w => Returned tt (set_downloads (downloads w ++ [(filename, content)]) w).

(** [JSON.stringify(logs)] and [JSON.stringify(logs, null, 2)] as
    computations that may throw. *)
Definition stringify `{Host} (ls : list LogEntry) : M string :=
  match JSON_stringify ls with
  | Some s => ret s
  | None => throw TypeError
  end.

Definition stringify_pretty `{Host} (ls : list LogEntry) : M string :=
  match JSON_stringify_pretty ls with
  | Some s => ret s
  | None => throw TypeError
  end.

(** [String.prototype.toUpperCase] on the ASCII letters. *)
Definition upper_ascii (c : ascii) : ascii :=
  let n := nat_of_ascii c in
  if ((97 <=? n) && (n <=? 122))%nat then ascii_of_nat (n - 32) else c.

Fixpoint toUpperCase (s : string) : string :=
  match s with
  | EmptyString => EmptyString
  | String c s' => String (upper_ascii c) (toUpperCase s')
  end.

(** ** The object behind [performanceMarks]

    [this.performanceMarks = {}] is an ordinary object, so a property
    lookup that finds no own property goes on to [Object.prototype]. *)

(** The property names of [Object.prototype]. *)
Definition Object_prototype_keys : list string :=
  [ "constructor"; "hasOwnProperty"; "isPrototypeOf"; "propertyIsEnumerable";
    "toLocaleString"; "toString"; "valueOf"; "__proto__";
    "__defineGetter__"; "__defineSetter__"; "__lookupGetter__";
    "__lookupSetter__" ].

(** What [this.performanceMarks[label]] evaluates to. *)
Inductive mark_value : Type :=
| MUndefined
| MNumber (t : Z)
| MInherited (name : string).

(** [marks[label]] as an expression: the own property, else the member of
    [Object.prototype] of that name (a function, or for [__proto__] the
    prototype object), else [undefined]. *)
Definition marks_get (marks : gmap string Z) (label : string) : mark_value :=
  match marks !! label with
  | Some t => MNumber t
  | None =>
      if bool_decide (label ∈ Object_prototype_keys) then MInherited label
      else MUndefined
  end.

(** [marks[label] = t]: writes the own property, except that with no own
    property the name [__proto__] reaches the setter of [Object.prototype],
    which ignores a number. *)
Definition marks_set (marks : gmap string Z) (label : string) (t : Z) : gmap string Z :=
  match marks !! label with
  | Some _ => <[label := t]> marks
  | None =>
      if bool_decide (label = "__proto__") then marks
      else <[label := t]> marks
  end.

(** [delete marks[label]] removes an own property only. *)
Definition marks_delete (marks : gmap string Z) (label : string) : gmap string Z :=
  delete label marks.

(** ToBoolean of a looked-up mark: [undefined] and [0] are falsy, functions
    and objects are truthy. *)
Definition mark_truthy (v : mark_value) : bool :=
  match v with
  | MUndefined => false
  | MNumber t => negb (t =? 0)
  | MInherited _ => true
  end.

(** ToNumber of a looked-up mark: functions and plain objects give [NaN]. *)
Definition mark_to_number (v : mark_value) : number :=
  match v with
  | MUndefined => NaN
  | MNumber t => Num t
  | MInherited _ => NaN
  end.

(** ** The methods of [Logger] *)

(** [_getLogStyle(level)], lines 58-67. *)
Definition _getLogStyle (level : Level) : string :=
  match level with
  | LDebug => "background: #9E9E9E; color: white; padding: 2px 5px; border-radius: 3px;"
  | LInfo => "background: #2196F3; color: white; padding: 2px 5px; border-radius: 3px;"
  | LWarn => "background: #FF9800; color: white; padding: 2px 5px; border-radius: 3px;"
  | LError => "background: #F44336; color: white; padding: 2px 5px; border-radius: 3px;"
  | LSuccess => "background: #4CAF50; color: white; padding: 2px 5px; border-radius: 3px;"
  end.

(** The entry [_log] builds at lines 20-27. *)
Definition logEntry_of (env : Env) (level : Level) (message : string)
    (data : jsval) : LogEntry :=
  {| timestamp := now_iso env;
     level := level;
     message := message;
     data := data;
     userAgent := navigator_userAgent env;
     url := location_href env |}.

(** [this.logs.push(e)] and [this.logs.shift()] *)
Definition push (e : LogEntry) : M unit :=
  update_this (fun l => set_logs (logs l ++ [e]) l).

Definition shift : M unit :=
  update_this (fun l => set_logs (tail (logs l)) l).

(** [_log(level, message, data = null)], lines 17-56.  An omitted
    ([undefined]) payload takes the default [null]. *)
Definition _log `{Host} (env : Env) (level : Level) (message : string)
    (data : option jsval) : M unit :=
  let data := default JNull data in
  let* l := get_this in
  if negb (enabled l) then ret tt
  else
    let logEntry := logEntry_of env level message data in
    push logEntry ;;
    (let* l := get_this in
     when (Z.of_nat (length (logs l)) >? maxLogs l) shift) ;;
    (let* l := get_this in
     when (logToStorage l)
       (try_catch
          (let* s := stringify (logs l) in
           localStorage_setItem env "bdws_logs" s)
          (fun e => console_warn "Failed to save logs to storage:" e))) ;;
    (let* l := get_this in
     when (logToConsole l)
       (console_log
          ("%c" ++ prefix l ++ " [" ++ toUpperCase (level_name level) ++ "]")
          (_getLogStyle level)
          message
          (if truthy data then data else JStr ""))).

(** The public logging methods, lines 70-88. *)
Definition debug `{Host} (env : Env) (message : string) (data : option jsval) : M unit :=
  _log env LDebug message data.

Definition info `{Host} (env : Env) (message : string) (data : option jsval) : M unit :=
  _log env LInfo message data.

Definition warn `{Host} (env : Env) (message : string) (data : option jsval) : M unit :=
  _log env LWarn message data.

Definition error `{Host} (env : Env) (message : string) (data : option jsval) : M unit :=
  _log env LError message data.

Definition success `{Host} (env : Env) (message : string) (data : option jsval) : M unit :=
  _log env LSuccess message data.

(** [startPerformance(label)], lines 91-94. *)
Definition startPerformance `{Host} (env : Env) (label : string) : M unit :=
  update_this (fun l =>
    set_performanceMarks (marks_set (performanceMarks l) label (performance_now env)) l) ;;
  debug env ("Performance tracking started: " ++ label) None.

(** [endPerformance(label)], lines 96-103; [None] is [undefined]. *)
Definition endPerformance `{Host} (env : Env) (label : string) : M (option number) :=
  let* l := get_this in
  let mark := marks_get (performanceMarks l) label in
  if mark_truthy mark then
    let duration := number_sub (Num (performance_now env)) (mark_to_number mark) in
    info env ("Performance: " ++ label ++ " completed in " ++ toFixed2 duration ++ "ms") None ;;
    update_this (fun l =>
      set_performanceMarks (marks_delete (performanceMarks l) label) l) ;;
    ret (Some duration)
  else ret None.

(** [getLogs()], lines 106-108. *)
Definition getLogs : M (list LogEntry) :=
  let* l := get_this in ret (logs l).

(** [clearLogs()], lines 111-117. *)
Definition clearLogs `{Host} (env : Env) : M unit :=
  update_this (set_logs []) ;;
  (let* l := get_this in
   when (logToStorage l) (localStorage_removeItem env "bdws_logs")) ;;
  info env "Logs cleared" None.

(** [exportLogs()], lines 120-129.  [stamp] is the clock reading that goes
    into the file name; the entry logged afterwards reads the clock again. *)
Definition exportLogs `{Host} (stamp : string) (env : Env) : M unit :=
  let* l := get_this in
  let* dataStr := stringify_pretty (logs l) in
  download ("bdws-logs-" ++ stamp ++ ".json") dataStr ;;
  success env "Logs exported successfully" None.

(** ** Sequences of calls *)

(** One call of a public logging method, with what the browser answers
    during it. *)
Record LogCall : Type := mkLogCall {
  call_env : Env;
  call_level : Level;
  call_message : string;
  call_data : option jsval
}.

(** The public method that logs at a given level. *)
Definition logging_method `{Host} (level : Level) : Env -> string -> option jsval -> M unit :=
  match level with
  | LDebug => debug
  | LInfo => info
  | LWarn => warn
  | LError => error
  | LSuccess => success
  end.

Definition do_log `{Host} (c : LogCall) : M unit :=
  logging_method (call_level c) (call_env c) (call_message c) (call_data c).

(** The entry an enabled logger records for a call. *)
Definition entry_of_call (c : LogCall) : LogEntry :=
  logEntry_of (call_env c) (call_level c) (call_message c)
    (default JNull (call_data c)).

(** The calls one after the other; nothing in between touches the logger. *)
Fixpoint run_logging `{Host} (calls : list LogCall) (w : World) : World :=
  match calls with
  | [] => w
  | c :: calls' => run_logging calls' (world_of (do_log c w))
  end.

(** A call of any method of the public surface. *)
Inductive Call : Type :=
| call_log (level : Level) (message : string) (data : option jsval)
| call_startPerformance (label : string)
| call_endPerformance (label : string)
| call_getLogs
| call_clearLogs
| call_exportLogs (stamp : string).

Definition perform `{Host} (env : Env) (c : Call) : M unit :=
  match c with
  | call_log level message data => logging_method level env message data
  | call_startPerformance label => startPerformance env label
  | call_endPerformance label => endPerformance env label ;; ret tt
  | call_getLogs => getLogs ;; ret tt
  | call_clearLogs => clearLogs env
  | call_exportLogs stamp => exportLogs stamp env
  end.

(** The world after a call; a call that throws leaves what it had done. *)
Definition step `{Host} (env : Env) (c : Call) (w : World) : World :=
  world_of (perform env c w).

(** The worlds a program can be in: a logger fresh from its constructor in
    any browser, then any calls of its methods. *)
Inductive reachable `{Host} : World -> Prop :=
| reachable_new (options : option Options) (store : gmap string string)
    (out : list ConsoleCall) (files : list (string * string)) :
    reachable {| this := new_Logger options; localStorage := store;
                 console := out; downloads := files |}
| reachable_step (env : Env) (c : Call) (w : World) :
    reachable w -> reachable (step env c w).

(** ** Vocabulary of the specification *)

(** The [n] last elements of a list, in the order of the list. *)
Definition most_recent {A} (n : nat) (l : list A) : list A :=
  drop (length l - n) l.

(** What lines 30-35 leave in the buffer: the entry appended, then the
    first entry dropped if the length is over [maxLogs]. *)
Definition appended (max : Z) (ls : list LogEntry) (e : LogEntry) : list LogEntry :=
  if Z.of_nat (length (ls ++ [e])) >? max then tail (ls ++ [e]) else ls ++ [e].

(** The buffer holds no more entries than [maxLogs] allows; a negative
    [maxLogs] allows none. *)
Definition within_capacity (l : Logger) : Prop :=
  Z.of_nat (length (logs l)) <= Z.max 0 (maxLogs l).

(** The notice [clearLogs] logs. *)
Definition cleared_notice (env : Env) : LogEntry :=
  logEntry_of env LInfo "Logs cleared" JNull.

(** The line an enabled logger with console output prints for a call
    (lines 49-54). *)
Definition console_line (l : Logger) (level : Level) (msg : string)
    (d : option jsval) : ConsoleCall :=
  console_log_call
    ("%c" ++ prefix l ++ " [" ++ toUpperCase (level_name level) ++ "]")
    (_getLogStyle level) msg
    (if truthy (default JNull d) then default JNull d else JStr "").

(** The warning printed by the [catch] at line 42. *)
Definition storage_warning (e : Exception) : ConsoleCall :=
  console_warn_call "Failed to save logs to storage:" e.

(** The configuration fixed by the constructor. *)
Definition config (l : Logger) : bool * string * string * bool * bool * Z :=
  (enabled l, minLevel l, prefix l, logToConsole l, logToStorage l, maxLogs l).

(** The same answers of the browser, but with a storage that accepts the
    write. *)
Definition storage_accepting (env : Env) : Env :=
  {| now_iso := now_iso env;
     performance_now := performance_now env;
     navigator_userAgent := navigator_userAgent env;
     location_href := location_href env;
     setItem_throws := false;
     removeItem_throws := removeItem_throws env |}.

(** [maxLogs] as given in the options is falsy: absent, [0] or [NaN]. *)
Definition falsy_number (x : option number) : bool :=
  match x with
  | None => true
  | Some (Num z) => z =? 0
  | Some NaN => true
  end.

(** ** A browser to run examples in *)

Module Sample.

(** Two digits of a number below one hundred. *)
Definition two_digits (n : Z) : string :=
  (if n <? 10 then "0" else "") ++ pretty n.

(** [toFixed(2)] of a duration read as microseconds and shown in
    milliseconds: rounded to the nearest hundredth, halves upwards. *)
Definition fixed2 (n : number) : string :=
  match n with
  | NaN => "NaN"
  | Num z =>
      let h := (Z.abs z + 5) / 10 in
      (if z <? 0 then "-" else "") ++ pretty (h / 100) ++ "." ++ two_digits (h mod 100)
  end.

(** A stand-in for [JSON.stringify]: the messages of the entries. *)
Definition messages_of (ls : list LogEntry) : option string :=
  Some ("[" ++ String.concat "," (message <$> ls) ++ "]").

Definition host : Host :=
  {| toFixed2 := fixed2;
     JSON_stringify := messages_of;
     JSON_stringify_pretty := messages_of |}.

(** A browser whose storage accepts writes, at clock reading [t]. *)
Definition env_at (t : Z) : Env :=
  {| now_iso := "2024-01-01T00:00:00.000Z";
     performance_now := t;
     navigator_userAgent := "Mozilla/5.0";
     location_href := "https://example.org/";
     setItem_throws := false;
     removeItem_throws := false |}.

(** The same browser with its storage full. *)
Definition env_full (t : Z) : Env :=
  {| now_iso := "2024-01-01T00:00:00.000Z";
     performance_now := t;
     navigator_userAgent := "Mozilla/5.0";
     location_href := "https://example.org/";
     setItem_throws := true;
     removeItem_throws := false |}.

(** A page that has just constructed [new Logger(options)]. *)
Definition fresh (options : option Options) : World :=
  {| this := new_Logger options; localStorage := ∅; console := [];
     downloads := [] |}.

(** The options of the logger Script.js creates at line 133. *)
Definition site_options : Options :=
  {| opt_enabled := Some true; opt_level := Some "debug";
     opt_prefix := None; opt_console := Some true;
     opt_storage := Some true; opt_maxLogs := None |}.

Definition with_maxLogs (n : Z) : Options :=
  {| opt_enabled := None; opt_level := None; opt_prefix := None;
     opt_console := None; opt_storage := None;
     opt_maxLogs := Some (Num n) |}.

Definition disabled : Options :=
  {| opt_enabled := Some false; opt_level := None; opt_prefix := None;
     opt_console := None; opt_storage := Some true;
     opt_maxLogs := None |}.

End Sample.

(** ** Runs of method calls *)

(** Calls of the public methods one after the other, each with what the
    browser answers during it. *)
Fixpoint run_calls `{Host} (cs : list (Env * Call)) (w : World) : World :=
  match cs with
  | [] => w
  | (env, c) :: cs' => run_calls cs' (step env c w)
  end.

(** The same logger constructed with another [level] option. *)
Definition with_level (s : string) (w : World) : World :=
  set_this
    {| enabled := enabled (this w); minLevel := s; prefix := prefix (this w);
       logToConsole := logToConsole (this w);
       logToStorage := logToStorage (this w);
       maxLogs := maxLogs (this w); logs := logs (this w);
       performanceMarks := performanceMarks (this w) |} w.


(** The two entries of a timing, as [startPerformance] and
    [endPerformance] log them. *)
Definition started_entry (env : Env) (label : string) : LogEntry :=
  logEntry_of env LDebug ("Performance tracking started: " ++ label) JNull.

Definition completed_entry `{Host} (env : Env) (label : string) (duration : number) : LogEntry :=
  logEntry_of env LInfo
    ("Performance: " ++ label ++ " completed in " ++ toFixed2 duration ++ "ms") JNull.

(** A browser in which [JSON.stringify] throws on a payload that refers to
    itself, here an object whose first field is [self]. *)
Module Cyclic.

Definition refers_to_itself (v : jsval) : bool :=
  match v with
  | JObj (("self", _) :: _) => true
  | _ => false
  end.

Definition stringify_acyclic (ls : list LogEntry) : option string :=
  if existsb (fun e => refers_to_itself (data e)) ls then None
  else Sample.messages_of ls.

Definition host : Host :=
  {| toFixed2 := Sample.fixed2;
     JSON_stringify := stringify_acyclic;
     JSON_stringify_pretty := stringify_acyclic |}.

Definition payload : jsval := JObj [("self", JNull)].

End Cyclic.

(** * The page around the logger

    The classes of Script.js below line 141 all log through the one
    [logger] of line 133, so their methods run in the same monad, over the
    same [World]; what they change in the document is kept in a record of
    their own. *)

(** ** Class lists *)

(** [classList.add(token)] and [classList.remove(token)]: a class list is
    a list of distinct tokens. *)
Definition classList_add (token : string) (classes : list string) : list string :=
  if bool_decide (token ∈ classes) then classes else classes ++ [token].

Definition classList_remove (token : string) (classes : list string) : list string :=
  List.filter (fun t => negb (String.eqb t token)) classes.

(** ** The portfolio gallery, lines 213-303 *)

Record Image : Type := mkImage {
  src : string;
  category : string
}.

(** A [div] of the gallery as line 266-276 build it; [click_opens] is the
    listener of line 275, which opens that image. *)
Record GalleryItem : Type := mkGalleryItem {
  className : string;
  innerHTML : string;
  click_opens : string
}.

(** The fields of a [PortfolioGallery]; [gallery] is the element
    [#portfolioGallery] with its children, when the document has one. *)
Record PortfolioGallery : Type := mkPortfolioGallery {
  images : list Image;
  currentFilter : string;
  gallery : option (list GalleryItem)
}.

(** A filter button: its [data-filter] attribute, if any, and its classes. *)
Record FilterButton : Type := mkFilterButton {
  dataset_filter : option string;
  classList : list string
}.

(** The list of lines 215-239. *)
Definition site_images : list Image :=
  [ mkImage "a.jpg" "design"; mkImage "b.jpg" "web"; mkImage "c.jpg" "branding";
    mkImage "d.jpg" "design"; mkImage "h.jpg" "web"; mkImage "i.jpg" "branding";
    mkImage "j.jpg" "design"; mkImage "k.jpg" "web"; mkImage "l.jpg" "design";
    mkImage "n.jpg" "branding"; mkImage "o.jpg" "web"; mkImage "p.jpg" "design";
    mkImage "q.jpg" "branding"; mkImage "r.jpg" "web"; mkImage "s.jpg" "design";
    mkImage "t (2).jpg" "branding"; mkImage "t.jpg" "web"; mkImage "u.jpg" "design";
    mkImage "v.jpg" "branding"; mkImage "w.jpg" "web"; mkImage "x.jpg" "design";
    mkImage "aa.jpg" "branding"; mkImage "z.jpg" "web" ].

Definition set_gallery (items : option (list GalleryItem)) (g : PortfolioGallery)
    : PortfolioGallery :=
  {| images := images g; currentFilter := currentFilter g; gallery := items |}.

(** The characters of the template literal of lines 268-273. *)
Definition dq : string := String (ascii_of_nat 34) EmptyString.
Definition nl : string := String (ascii_of_nat 10) EmptyString.

Fixpoint spaces (n : nat) : string :=
  match n with
  | O => EmptyString
  | S n' => String (ascii_of_nat 32) (spaces n')
  end.

(** The item of lines 266-275 for the image at [index] of the images
    shown. *)
Definition gallery_item (index : nat) (img : Image) : GalleryItem :=
  {| className := "gallery-item " ++ category img;
     innerHTML :=
       nl ++ spaces 16 ++ "<img src=" ++ dq ++ src img ++ dq
       ++ " alt=" ++ dq ++ "Portfolio Image " ++ pretty (index + 1)%nat ++ dq
       ++ " loading=" ++ dq ++ "lazy" ++ dq ++ ">"
       ++ nl ++ spaces 16 ++ "<div class=" ++ dq ++ "gallery-overlay" ++ dq ++ ">"
       ++ nl ++ spaces 20 ++ "<i class=" ++ dq ++ "fas fa-search-plus overlay-icon" ++ dq ++ "></i>"
       ++ nl ++ spaces 16 ++ "</div>"
       ++ nl ++ spaces 12;
     click_opens := src img |}.

(** [renderGallery(filter = 'all')], lines 254-278; an omitted filter is
    [None].  The element is emptied at line 257 and the items appended to
    it at line 276. *)
Definition renderGallery `{Host} (env : Env) (filter : option string)
    (g : PortfolioGallery) : M PortfolioGallery :=
  let filter := default "all" filter in
  match gallery g with
  | None => ret g
  | Some _ =>
      let emptied : list GalleryItem := [] in
      let filteredImages :=
        if String.eqb filter "all" then images g
        else List.filter (fun img => String.eqb (category img) filter) (images g) in
      info env ("Rendering gallery with filter: " ++ filter)
        (Some (JObj [("count", JNum (Num (Z.of_nat (length filteredImages))))])) ;;
      ret (set_gallery (Some (emptied ++ imap gallery_item filteredImages)%list) g)
  end.

(** The listener of lines 284-294 on the button at index [i] of
    [filterButtons]; [env1] is the browser during the log call of
    [renderGallery], [env2] during the one of line 293. *)
Definition filter_click `{Host} (env1 env2 : Env) (i : nat)
    (filterButtons : list FilterButton) (g : PortfolioGallery)
    : M (list FilterButton * PortfolioGallery) :=
  match filterButtons !! i with
  | None => ret (filterButtons, g)
  | Some btn =>
      let filter := dataset_filter btn in
      let cleared :=
        (fun b => mkFilterButton (dataset_filter b)
                    (classList_remove "active" (classList b))) <$> filterButtons in
      let marked :=
        alter (fun b => mkFilterButton (dataset_filter b)
                          (classList_add "active" (classList b))) i cleared in
      let* g' := renderGallery env1 filter g in
      info env2 ("Filter applied: " ++ default "undefined" filter) None ;;
      ret (marked, g')
  end.

(** [openLightbox(imageSrc)], lines 298-302; [opened] lists the calls of
    [window.open]. *)
Definition openLightbox `{Host} (env : Env) (imageSrc : string)
    (opened : list (string * string)) : M (list (string * string)) :=
  debug env "Opening lightbox" (Some (JObj [("image", JStr imageSrc)])) ;;
  ret (opened ++ [(imageSrc, "_blank")])%list.

(** [init()], lines 247-252.  [setupFilters] registers the listener
    [filter_click] on every button and changes nothing by itself. *)
Definition gallery_init `{Host} (env0 env1 env2 : Env) (g : PortfolioGallery)
    : M PortfolioGallery :=
  startPerformance env0 "gallery-init" ;;
  let* g' := renderGallery env1 None g in
  endPerformance env2 "gallery-init" ;;
  ret g'.

(** The payload [{ count: n }] of line 263. *)
Definition count_payload (n : nat) : jsval :=
  JObj [("count", JNum (Num (Z.of_nat n)))].

(** A gallery object over the images of the site. *)
Definition site_gallery (element : option (list GalleryItem)) : PortfolioGallery :=
  {| images := site_images; currentFilter := "all"; gallery := element |}.

(** ** Numbers read from the document

    Scroll offsets and the values computed from them are doubles; a finite
    double is the rational it denotes. *)

(** [x < y] on finite doubles. *)
Definition Qltb (x y : Q) : bool := negb (Qle_bool y x).

(** The value of an arithmetic expression: finite, infinite (a division by
    zero) or [NaN]. *)
Inductive double : Type :=
| Finite (q : Q)
| PosInfinity
| NegInfinity
| NotANumber.

(** Operations on doubles that round, and the conversion to a string, are
    left uninterpreted. *)
Class Doubles : Type := mkDoubles {
  Number_toString : Q -> string;
  fmul : Q -> Q -> Q;
  fadd : Q -> Q -> Q
}.

(** [Math.min] on finite doubles. *)
Definition Math_min (x y : Q) : Q := if Qle_bool x y then x else y.

(** ** Analytics: the scroll depth, lines 459-473 *)

(** The variable [maxScroll] of line 460: [0] at first, then what
    [Math.floor] returned at line 466, an integer or [Infinity]. *)
Inductive depth : Type :=
| Depth (m : Z)
| DepthInfinity.

(** The scroll listener of lines 462-472, given the value
    [scrollPercentage] of line 463. *)
Definition scroll_depth `{Host} {D : Doubles} (env : Env) (scrollPercentage : double)
    (maxScroll : depth) : M depth :=
  match scrollPercentage, maxScroll with
  | Finite q, Depth m =>
      if Qltb (inject_Z m) q then
        let maxScroll := Qfloor q in
        if (Z.rem maxScroll 25 =? 0) && (0 <? maxScroll) then
          info env ("Scroll depth: " ++ Number_toString (inject_Z maxScroll) ++ "%") None ;;
          ret (Depth maxScroll)
        else ret (Depth maxScroll)
      else ret (Depth m)
  | PosInfinity, Depth _ => ret DepthInfinity
  | _, _ => ret maxScroll
  end.

(** Scroll events one after the other. *)
Fixpoint scroll_depths `{Host} {D : Doubles} (events : list (Env * double))
    (maxScroll : depth) (w : World) : depth * World :=
  match events with
  | [] => (maxScroll, w)
  | (env, pct) :: events' =>
      match scroll_depth env pct maxScroll w with
      | Returned maxScroll' w' => scroll_depths events' maxScroll' w'
      | Thrown _ w' => scroll_depths events' maxScroll w'
      end
  end.

(** [maxScroll] only grows. *)
Definition depth_le (a b : depth) : Prop :=
  match a, b with
  | Depth m, Depth n => m <= n
  | _, DepthInfinity => True
  | DepthInfinity, Depth _ => False
  end.

(** ** Navigation and the back-to-top button *)

(** [handleScroll()], lines 320-326; [navbar] is the class list of
    [#mainNav], [None] when the document has no such element. *)
Definition handleScroll (scrollY : Q) (navbar : option (list string))
    : option (list string) :=
  if Qltb 100 scrollY then classList_add "scrolled" <$> navbar
  else classList_remove "scrolled" <$> navbar.

(** The scroll listener of [BackToTop], lines 379-385, on the class list
    of the button. *)
Definition backToTop_scroll (scrollY : Q) (button : list string) : list string :=
  if Qltb 300 scrollY then classList_add "visible" button
  else classList_remove "visible" button.

(** A [section[id]] element, with the integers [offsetTop] and
    [offsetHeight], and a [.nav-link], with its [href] attribute if it has
    one. *)
Record PageSection : Type := mkPageSection {
  offsetTop : Z;
  offsetHeight : Z;
  sectionId : string
}.

Record NavLink : Type := mkNavLink {
  href : option string;
  link_classes : list string
}.

(** The test of line 354. *)
Definition section_contains (scrollPosition : Q) (section : PageSection) : bool :=
  Qle_bool (inject_Z (offsetTop section)) scrollPosition
  && Qltb scrollPosition (inject_Z (offsetTop section + offsetHeight section)).

(** Lines 355-360 for one section. *)
Definition activate_links (section : PageSection) (navLinks : list NavLink)
    : list NavLink :=
  (fun link =>
     let classes := classList_remove "active" (link_classes link) in
     if bool_decide (href link = Some ("#" ++ sectionId section))
     then mkNavLink (href link) (classList_add "active" classes)
     else mkNavLink (href link) classes) <$> navLinks.

(** The scroll listener of [updateActiveLink], lines 345-363, given the
    value [scrollPosition] of line 347. *)
Definition updateActiveLink (scrollPosition : Q) (sections : list PageSection)
    (navLinks : list NavLink) : list NavLink :=
  foldl (fun links section =>
           if section_contains scrollPosition section
           then activate_links section links else links)
        navLinks sections.

(** ** The parallax effect, lines 143-210 *)

(** The double nearest to the literal [1.5], and the one nearest to
    [1.2]. *)
Definition literal_1_5 : Q := 3 # 2.
Definition literal_1_2 : Q := 5404319552844595 # 4503599627370496.

(** The inline style of each of the seven elements the constructor looks
    up, [None] for one the document lacks. *)
Record Elements : Type := mkElements {
  stars : option (gmap string string);
  moon : option (gmap string string);
  mountains3 : option (gmap string string);
  mountains4 : option (gmap string string);
  river : option (gmap string string);
  boat : option (gmap string string);
  mainTitle : option (gmap string string)
}.

Record ParallaxEffect : Type := mkParallaxEffect {
  elements : Elements;
  scrollPosition : Q;
  ticking : bool
}.

(** [x + 'px'] *)
Definition px {D : Doubles} (x : Q) : string := Number_toString x ++ "px".

(** [update()], lines 173-209, when [window.scrollY] is [scrollY]. *)
Definition update {D : Doubles} (scrollY : Q) (p : ParallaxEffect) : ParallaxEffect :=
  let scrollPosition := scrollY in
  let e := elements p in
  {| elements :=
       {| stars := <["left" := px scrollPosition]> <$> stars e;
          moon := <["top" := px (fmul scrollPosition 3)]> <$> moon e;
          mountains3 := <["top" := px (fmul scrollPosition literal_1_5)]> <$> mountains3 e;
          mountains4 := <["top" := px (fmul scrollPosition literal_1_2)]> <$> mountains4 e;
          river := <["top" := px scrollPosition]> <$> river e;
          boat := (fun style => <["left" := px (fmul scrollPosition 4)]>
                                  (<["top" := px scrollPosition]> style)) <$> boat e;
          mainTitle :=
            <["fontSize" := px (Math_min (fadd scrollPosition 30) 60)]> <$> mainTitle e |};
     scrollPosition := scrollPosition;
     ticking := false |}.

(** The effect together with the callbacks it has handed to
    [requestAnimationFrame] and that the browser has not run yet. *)
Record Animation : Type := mkAnimation {
  effect : ParallaxEffect;
  pending : nat
}.

(** [requestTick()], lines 166-171. *)
Definition requestTick (a : Animation) : Animation :=
  if negb (ticking (effect a)) then
    {| effect := {| elements := elements (effect a);
                    scrollPosition := scrollPosition (effect a);
                    ticking := true |};
       pending := S (pending a) |}
  else a.

(** An animation frame: the browser runs the callbacks handed to it, each
    of them [update]. *)
Definition animation_frame {D : Doubles} (scrollY : Q) (a : Animation) : Animation :=
  {| effect := Nat.iter (pending a) (update scrollY) (effect a);
     pending := 0 |}.

(** What happens to the effect: a scroll event, which line 163 answers
    with [requestTick], or a frame. *)
Inductive ParallaxEvent : Type :=
| scroll_event
| frame_event (scrollY : Q).

Definition parallax_step {D : Doubles} (ev : ParallaxEvent) (a : Animation) : Animation :=
  match ev with
  | scroll_event => requestTick a
  | frame_event scrollY => animation_frame scrollY a
  end.

(** The constructor, lines 144-159, with [init] of lines 161-164. *)
Definition new_ParallaxEffect `{Host} (env : Env) (found : Elements) : M Animation :=
  debug env "Initializing parallax effect" None ;;
  ret {| effect := {| elements := found; scrollPosition := 0; ticking := false |};
         pending := 0 |}.

(** While the effect is ticking one callback is pending, otherwise
    none. *)
Definition throttled (a : Animation) : Prop :=
  pending a = if ticking (effect a) then 1%nat else 0%nat.

(** Events one after the other. *)
Definition parallax_run {D : Doubles} (events : list ParallaxEvent) (a : Animation)
    : Animation :=
  foldl (fun a ev => parallax_step ev a) a events.

(** Doubles with exact arithmetic and integers printed in decimal, for
    examples. *)
Module Exact.

Definition show (x : Q) : string :=
  pretty (Qnum x) ++ (if (Qden x =? 1)%positive then "" else "/" ++ pretty (Zpos (Qden x))).

Definition doubles : Doubles :=
  {| Number_toString := fun x => show (Qred x);
     fmul := fun x y => Qred (x * y);
     fadd := fun x y => Qred (x + y) |}.

End Exact.

(** * Properties *)

(** Unfolds the monad down to functions on worlds. *)
Ltac unfold_monad :=
  unfold bind, ret, throw, try_catch, when, get_this, update_this, push, shift,
    console_log, console_warn, localStorage_setItem, localStorage_removeItem,
    download, stringify, stringify_pretty in *.

(** Splits on the first test the goal is stuck on. *)
Ltac split_if :=
  match goal with
  | |- context [if ?b then _ else _] => destruct b eqn:?
  | |- context [match JSON_stringify ?l with _ => _ end] =>
      destruct (JSON_stringify l) eqn:?
  | |- context [match JSON_stringify_pretty ?l with _ => _ end] =>
      destruct (JSON_stringify_pretty l) eqn:?
  end.

Ltac run_body := unfold_monad; cbn; repeat (split_if; cbn).

(** ** Lists: the most recent entries *)

Section MostRecent.
Context {A : Type}.
Implicit Types l k : list A.
Local Open Scope nat_scope.

Lemma most_recent_length n l : length (most_recent n l) = Nat.min n (length l).
Proof. unfold most_recent. rewrite length_drop. lia. Qed.

Lemma most_recent_all n l : length l <= n -> most_recent n l = l.
Proof.
  intros Hle. unfold most_recent.
  replace (length l - n) with 0 by lia. apply drop_0.
Qed.

(** Cutting the older part down first does not change what is most
    recent after more elements arrive. *)
Lemma most_recent_app n l k :
  most_recent n (most_recent n l ++ k) = most_recent n (l ++ k).
Proof.
  destruct (decide (length l <= n)) as [Hle|Hgt].
  { by rewrite (most_recent_all n l). }
  unfold most_recent at 1 3.
  rewrite !length_app, most_recent_length.
  unfold most_recent.
  rewrite !drop_app, length_drop, drop_drop.
  f_equal; f_equal; lia.
Qed.

Lemma most_recent_app_ge n l k :
  n <= length k -> most_recent n (l ++ k) = most_recent n k.
Proof.
  intros Hle. unfold most_recent.
  rewrite length_app, drop_app.
  rewrite (drop_ge l) by lia. cbn. f_equal. lia.
Qed.

Lemma tail_drop l : tail l = drop 1 l.
Proof. by destruct l. Qed.
End MostRecent.

(** ** The buffer after an append *)

Lemma set_logs_same l : set_logs (logs l) l = l.
Proof. by destruct l. Qed.

Lemma appended_length max ls e :
  Z.of_nat (length ls) <= Z.max 0 max ->
  Z.of_nat (length (appended max ls e)) <= Z.max 0 max.
Proof.
  intros Hle. unfold appended.
  destruct (Z.gtb_spec (Z.of_nat (length (ls ++ [e]))) max) as [Hgt|Hgt].
  - rewrite tail_drop, length_drop, length_app. cbn. lia.
  - lia.
Qed.

Lemma appended_most_recent max ls e :
  Z.of_nat (length ls) <= Z.max 0 max ->
  appended max ls e = most_recent (Z.to_nat max) (ls ++ [e]).
Proof.
  intros Hle. unfold appended, most_recent.
  rewrite length_app. cbn [length].
  destruct (Z.gtb_spec (Z.of_nat (length ls + 1)) max) as [Hgt|Hgt].
  - rewrite tail_drop. f_equal. lia.
  - replace (length ls + 1 - Z.to_nat max)%nat with 0%nat by lia. done.
Qed.

Section LoggerFacts.
Context {H : Host}.

(** *** What [_log] does to each part of the world *)

Lemma _log_returns env level msg d w :
  exists w', _log env level msg d w = Returned tt w'.
Proof. unfold _log. run_body; eauto. Qed.

Lemma _log_disabled env level msg d w :
  enabled (this w) = false -> _log env level msg d w = Returned tt w.
Proof. intros Hoff. unfold _log. unfold_monad. cbn. by rewrite Hoff. Qed.

Lemma _log_this env level msg d w :
  this (world_of (_log env level msg d w)) =
  if enabled (this w)
  then set_logs (appended (maxLogs (this w)) (logs (this w))
                   (logEntry_of env level msg (default JNull d))) (this w)
  else this w.
Proof.
  unfold _log, appended. unfold_monad. cbn.
  destruct (enabled (this w)); cbn; [|done].
  repeat (split_if; cbn); done.
Qed.

Lemma _log_downloads env level msg d w :
  downloads (world_of (_log env level msg d w)) = downloads w.
Proof. unfold _log. run_body; done. Qed.

Lemma logging_method_log level env msg d :
  logging_method level env msg d = _log env level msg d.
Proof. by destruct level. Qed.
End LoggerFacts.

Lemma bind_returned {A B} (m : M A) (k : A -> M B) w a w' :
  m w = Returned a w' -> bind m k w = k a w'.
Proof. intros Hm. unfold bind. by rewrite Hm. Qed.

Section MethodFacts.
Context {H : Host}.

(** *** The methods in terms of [_log] *)

Lemma startPerformance_unfold env label w :
  startPerformance env label w =
  _log env LDebug ("Performance tracking started: " ++ label) None
    (set_this (set_performanceMarks
                 (marks_set (performanceMarks (this w)) label (performance_now env))
                 (this w)) w).
Proof. reflexivity. Qed.

Lemma clearLogs_unfold env w :
  clearLogs env w =
  if logToStorage (this w) && removeItem_throws env
  then Thrown SecurityError (set_this (set_logs [] (this w)) w)
  else
    _log env LInfo "Logs cleared" None
      (if logToStorage (this w)
       then set_localStorage (delete "bdws_logs" (localStorage w))
              (set_this (set_logs [] (this w)) w)
       else set_this (set_logs [] (this w)) w).
Proof.
  unfold clearLogs, info. unfold_monad. cbn.
  by destruct (logToStorage (this w)), (removeItem_throws env).
Qed.

Lemma exportLogs_unfold stamp env w :
  exportLogs stamp env w =
  match JSON_stringify_pretty (logs (this w)) with
  | Some dataStr =>
      _log env LSuccess "Logs exported successfully" None
        (set_downloads (downloads w ++ [("bdws-logs-" ++ stamp ++ ".json", dataStr)]) w)
  | None => Thrown TypeError w
  end.
Proof.
  unfold exportLogs, success. unfold_monad. cbn.
  by destruct (JSON_stringify_pretty (logs (this w))).
Qed.

(** [endPerformance] with the log call taken out: the value returned
    and the world it is returned in. *)
Lemma endPerformance_unfold env label w :
  let mark := marks_get (performanceMarks (this w)) label in
  let duration := number_sub (Num (performance_now env)) (mark_to_number mark) in
  endPerformance env label w =
  if mark_truthy mark then
    let w' := world_of (_log env LInfo
                ("Performance: " ++ label ++ " completed in " ++ toFixed2 duration ++ "ms")
                None w) in
    Returned (Some duration)
      (set_this (set_performanceMarks
                   (marks_delete (performanceMarks (this w')) label) (this w')) w')
  else Returned None w.
Proof.
  cbn zeta. unfold endPerformance, info.
  unfold bind at 1, get_this at 1.
  destruct (mark_truthy _); [|done].
  destruct (_log_returns env LInfo
    ("Performance: " ++ label ++ " completed in " ++
     toFixed2 (number_sub (Num (performance_now env))
                 (mark_to_number (marks_get (performanceMarks (this w)) label))) ++ "ms")
    None w) as [w' Hw'].
  rewrite (bind_returned _ _ _ _ _ Hw'), Hw'. reflexivity.
Qed.

(** *** No method changes the configuration *)

Lemma _log_config env level msg d w :
  config (this (world_of (_log env level msg d w))) = config (this w).
Proof. rewrite _log_this. by destruct (enabled (this w)). Qed.

Lemma step_config env c w :
  config (this (step env c w)) = config (this w).
Proof.
  unfold step. destruct c; cbn [perform].
  - rewrite logging_method_log. apply _log_config.
  - rewrite startPerformance_unfold, _log_config. done.
  - unfold bind. rewrite endPerformance_unfold. cbn zeta.
    destruct (mark_truthy _); [|done].
    cbn -[_log]. apply _log_config.
  - done.
  - rewrite clearLogs_unfold.
    destruct (logToStorage (this w) && removeItem_throws env); [done|].
    rewrite _log_config. by destruct (logToStorage (this w)).
  - rewrite exportLogs_unfold.
    destruct (JSON_stringify_pretty _); [|done].
    by rewrite _log_config.
Qed.

(** *** The bound on the buffer is an invariant *)

Lemma _log_within_capacity env level msg d w :
  within_capacity (this w) ->
  within_capacity (this (world_of (_log env level msg d w))).
Proof.
  intros Hw. rewrite _log_this.
  destruct (enabled (this w)); [|done].
  unfold within_capacity. cbn. by apply appended_length.
Qed.

Lemma step_within_capacity env c w :
  within_capacity (this w) -> within_capacity (this (step env c w)).
Proof.
  intros Hw. unfold step. destruct c; cbn [perform].
  - rewrite logging_method_log. by apply _log_within_capacity.
  - rewrite startPerformance_unfold. by apply _log_within_capacity.
  - unfold bind. rewrite endPerformance_unfold. cbn zeta.
    destruct (mark_truthy _); [|done].
    cbn -[_log]. by apply _log_within_capacity.
  - done.
  - rewrite clearLogs_unfold.
    destruct (logToStorage (this w) && removeItem_throws env).
    + unfold within_capacity. cbn. lia.
    + apply _log_within_capacity. unfold within_capacity.
      destruct (logToStorage (this w)); cbn; lia.
  - rewrite exportLogs_unfold.
    destruct (JSON_stringify_pretty _); [|done].
    by apply _log_within_capacity.
Qed.

Lemma reachable_within_capacity w :
  reachable w -> within_capacity (this w).
Proof.
  induction 1 as [options store out files|env c w _ IH].
  - unfold within_capacity. cbn. lia.
  - by apply step_within_capacity.
Qed.

(** The constructor never leaves [maxLogs] at [0], and no method changes
    it. *)
Lemma new_Logger_maxLogs_nonzero options : maxLogs (new_Logger options) <> 0.
Proof.
  unfold new_Logger. cbn.
  destruct (opt_maxLogs (default no_options options)) as [[z|]|]; cbn; try lia.
  destruct (Z.eqb_spec z 0); lia.
Qed.

Lemma reachable_maxLogs_nonzero w :
  reachable w -> maxLogs (this w) <> 0.
Proof.
  induction 1 as [options store out files|env c w _ IH].
  - apply new_Logger_maxLogs_nonzero.
  - pose proof (step_config env c w) as Hc. unfold config in Hc.
    injection Hc as _ _ _ _ _ Hmax. by rewrite Hmax.
Qed.

(** *** A run of logging calls *)

Lemma run_logging_logs calls : forall w,
  enabled (this w) = true ->
  within_capacity (this w) ->
  logs (this (run_logging calls w)) =
  most_recent (Z.to_nat (maxLogs (this w)))
    (logs (this w) ++ (entry_of_call <$> calls)).
Proof.
  induction calls as [|c calls IH]; intros w Hon Hcap; cbn [run_logging fmap list_fmap].
  - rewrite app_nil_r, most_recent_all; [done|].
    unfold within_capacity in Hcap. lia.
  - pose proof (_log_this (call_env c) (call_level c) (call_message c) (call_data c) w) as Hthis.
    rewrite Hon in Hthis.
    unfold do_log. rewrite logging_method_log.
    rewrite IH.
    + rewrite Hthis. cbn [logs maxLogs set_logs].
      rewrite appended_most_recent by done.
      rewrite most_recent_app, <- app_assoc. done.
    + by rewrite Hthis.
    + by apply _log_within_capacity.
Qed.
End MethodFacts.

Section StorageAndConsole.
Context {H : Host}.

(** The store after a log call: written only by an enabled logger that
    mirrors to storage, when neither the serialization nor the write
    throws. *)
Lemma _log_localStorage env level msg d w :
  localStorage (world_of (_log env level msg d w)) =
  if enabled (this w) && logToStorage (this w) && negb (setItem_throws env)
  then match JSON_stringify (logs (this (world_of (_log env level msg d w)))) with
       | Some s => <["bdws_logs" := s]> (localStorage w)
       | None => localStorage w
       end
  else localStorage w.
Proof.
  unfold _log. unfold_monad. cbn.
  destruct (enabled (this w)); cbn; [|done].
  destruct (Z.of_nat _ >? _); cbn;
    destruct (logToStorage (this w)); cbn;
    try (destruct (JSON_stringify _) eqn:Hjson; cbn);
    destruct (setItem_throws env); cbn;
    destruct (logToConsole (this w)); cbn; by rewrite ?Hjson.
Qed.

(** The console after a log call whose storage write is refused. *)
Lemma _log_console_refused env level msg d w :
  enabled (this w) = true ->
  logToStorage (this w) = true ->
  setItem_throws env = true ->
  exists e,
    console (world_of (_log env level msg d w)) =
    (console w ++ [storage_warning e] ++
     (if logToConsole (this w) then [console_line (this w) level msg d] else []))%list.
Proof.
  intros Hon Hst Hthrow.
  unfold _log, storage_warning, console_line. unfold_monad. cbn.
  rewrite Hon. cbn.
  destruct (Z.of_nat _ >? _); cbn; rewrite Hst; cbn;
    (destruct (JSON_stringify _); cbn; [rewrite Hthrow; cbn|]);
    destruct (logToConsole (this w)); cbn;
    eexists; rewrite <- ?app_assoc; reflexivity.
Qed.

(** *** The buffer after [clearLogs] *)

(** [clearLogs] returns unless it mirrors to storage and the browser
    denies the access of line 114, which no [try] guards. *)
Lemma clearLogs_returns env w :
  logToStorage (this w) && removeItem_throws env = false ->
  exists w', clearLogs env w = Returned tt w'.
Proof. intros Hok. rewrite clearLogs_unfold, Hok. apply _log_returns. Qed.

Lemma clearLogs_throws env w :
  logToStorage (this w) && removeItem_throws env = true ->
  clearLogs env w = Thrown SecurityError (set_this (set_logs [] (this w)) w).
Proof. intros Hdenied. by rewrite clearLogs_unfold, Hdenied. Qed.

Lemma clearLogs_logs env w :
  logs (this (world_of (clearLogs env w))) =
  if logToStorage (this w) && removeItem_throws env then []
  else if enabled (this w)
       then appended (maxLogs (this w)) [] (cleared_notice env)
       else [].
Proof.
  rewrite clearLogs_unfold.
  destruct (logToStorage (this w) && removeItem_throws env); [done|].
  rewrite _log_this.
  destruct (logToStorage (this w)); cbn -[appended];
    by destruct (enabled (this w)).
Qed.

Lemma appended_to_empty max e :
  appended max [] e = if 0 <? max then [e] else [].
Proof.
  unfold appended. cbn.
  destruct (Z.gtb_spec (Z.of_nat 1) max), (Z.ltb_spec 0 max); (done || lia).
Qed.

(** *** The marks after the timing methods, and the value returned *)

Lemma _log_marks env level msg d w :
  performanceMarks (this (world_of (_log env level msg d w))) =
  performanceMarks (this w).
Proof. rewrite _log_this. by destruct (enabled (this w)). Qed.

Lemma startPerformance_returns env label w :
  exists w', startPerformance env label w = Returned tt w'.
Proof. rewrite startPerformance_unfold. apply _log_returns. Qed.

Lemma startPerformance_marks env label w :
  performanceMarks (this (world_of (startPerformance env label w))) =
  marks_set (performanceMarks (this w)) label (performance_now env).
Proof. by rewrite startPerformance_unfold, _log_marks. Qed.

Lemma endPerformance_value env label w :
  let mark := marks_get (performanceMarks (this w)) label in
  value_of (endPerformance env label w) =
  Some (if mark_truthy mark
        then Some (number_sub (Num (performance_now env)) (mark_to_number mark))
        else None).
Proof.
  cbn zeta. rewrite endPerformance_unfold. cbn zeta.
  by destruct (mark_truthy _).
Qed.

Lemma endPerformance_marks env label w :
  performanceMarks (this (world_of (endPerformance env label w))) =
  if mark_truthy (marks_get (performanceMarks (this w)) label)
  then marks_delete (performanceMarks (this w)) label
  else performanceMarks (this w).
Proof.
  rewrite endPerformance_unfold. cbn zeta.
  destruct (mark_truthy _); [|done].
  cbn -[_log]. by rewrite _log_marks.
Qed.

(** A label that was never started and is no member of
    [Object.prototype] is left alone. *)
Lemma endPerformance_unknown env label w :
  performanceMarks (this w) !! label = None ->
  label ∉ Object_prototype_keys ->
  endPerformance env label w = Returned None w.
Proof.
  intros Hnone Hproto. rewrite endPerformance_unfold. cbn zeta.
  unfold marks_get. rewrite Hnone, bool_decide_eq_false_2 by done. done.
Qed.

(** Starting a label other than [__proto__] stores the reading, whatever
    was stored before. *)
Lemma startPerformance_last_wins env label w :
  label <> "__proto__" ->
  performanceMarks (this (world_of (startPerformance env label w))) !! label =
  Some (performance_now env).
Proof.
  intros Hlabel. rewrite startPerformance_marks. unfold marks_set.
  destruct (performanceMarks (this w) !! label).
  - apply lookup_insert_eq.
  - rewrite bool_decide_eq_false_2 by done. apply lookup_insert_eq.
Qed.

(** The intended path: a label other than [__proto__], started at a
    nonzero reading [t0] and ended at [t1], yields [t1 - t0] and is
    removed. *)
Lemma start_then_end env0 env1 label w :
  label <> "__proto__" ->
  performance_now env0 <> 0 ->
  let w1 := world_of (startPerformance env0 label w) in
  let w2 := world_of (endPerformance env1 label w1) in
  value_of (endPerformance env1 label w1) =
    Some (Some (Num (performance_now env1 - performance_now env0)))
  /\ performanceMarks (this w2) !! label = None.
Proof.
  intros Hlabel Ht0 w1 w2.
  pose proof (startPerformance_last_wins env0 label w Hlabel) as Hmark.
  fold w1 in Hmark.
  assert (Hget : marks_get (performanceMarks (this w1)) label =
                 MNumber (performance_now env0)).
  { unfold marks_get. by rewrite Hmark. }
  assert (Htruthy : mark_truthy (MNumber (performance_now env0)) = true).
  { cbn. by destruct (Z.eqb_spec (performance_now env0) 0). }
  split.
  - rewrite endPerformance_value. cbn zeta. by rewrite Hget, Htruthy.
  - subst w2. rewrite endPerformance_marks, Hget, Htruthy.
    apply lookup_delete_eq.
Qed.

(** On a monotonic clock that duration is not negative. *)
Lemma elapsed_nonneg (t0 t1 : Z) :
  t0 <= t1 -> number_nonneg (number_sub (Num t1) (Num t0)) = true.
Proof. intros Hle. cbn. by apply Z.leb_le, Z.le_0_sub. Qed.

(** A logger constructed with a negative [maxLogs] keeps no entry. *)
Lemma negative_maxLogs_keeps_nothing w :
  reachable w -> maxLogs (this w) < 0 -> logs (this w) = [].
Proof.
  intros Hreach Hneg.
  pose proof (reachable_within_capacity w Hreach) as Hcap.
  unfold within_capacity in Hcap.
  destruct (logs (this w)); [done|cbn in Hcap; lia].
Qed.
End StorageAndConsole.

(** ** The constructor *)

(** C9. Constructing a Logger with [maxLogs = 0], or any other falsy
    [maxLogs] (absent, [NaN]), or with no options at all, yields a capacity
    of 100 and not of 0: the fallback [options.maxLogs || 100] treats 0 as
    it treats an absent option.  Any other integer is kept as given. *)
Theorem falsy_maxLogs_gives_default :
  (forall options : Options,
      falsy_number (opt_maxLogs options) = true ->
      maxLogs (new_Logger (Some options)) = 100)
  /\ maxLogs (new_Logger (Some (Sample.with_maxLogs 0))) = 100
  /\ maxLogs (new_Logger None) = 100
  /\ (forall (options : Options) (z : Z),
        opt_maxLogs options = Some (Num z) -> z <> 0 ->
        maxLogs (new_Logger (Some options)) = z).
Proof.
  repeat split.
  - intros options Hfalsy. cbn.
    destruct (opt_maxLogs options) as [[z|]|]; cbn in *; try done.
    by rewrite Hfalsy.
  - intros options z Hz Hnz. cbn. rewrite Hz. cbn.
    by destruct (Z.eqb_spec z 0).
Qed.

Lemma falsy_maxLogs_gives_default_witness :
  maxLogs (new_Logger (Some (Sample.with_maxLogs 0))) = 100.
Proof.
  apply (proj1 falsy_maxLogs_gives_default (Sample.with_maxLogs 0)).
  reflexivity.
Defined.

(** ** Logging *)

(** C3. On a logger whose [enabled] is false, a call of [debug], [info],
    [warn], [error] or [success], with any message and payload, returns in
    the world it was called in: the buffer, the persistent store and the
    console (and everything else) are what they were. *)
Theorem disabled_logger_is_silent (H : Host) (env : Env) (msg : string)
    (d : option jsval) (w : World) :
  enabled (this w) = false ->
  debug env msg d w = Returned tt w
  /\ info env msg d w = Returned tt w
  /\ warn env msg d w = Returned tt w
  /\ error env msg d w = Returned tt w
  /\ success env msg d w = Returned tt w.
Proof.
  intros Hoff. unfold debug, info, warn, error, success.
  repeat split; by apply _log_disabled.
Qed.

Lemma disabled_logger_is_silent_witness :
  let w := Sample.fresh (Some Sample.disabled) in
  debug (H:=Sample.host) (Sample.env_at 7) "m" (Some (JStr "x")) w = Returned tt w
  /\ info (H:=Sample.host) (Sample.env_at 7) "m" (Some (JStr "x")) w = Returned tt w
  /\ warn (H:=Sample.host) (Sample.env_at 7) "m" (Some (JStr "x")) w = Returned tt w
  /\ error (H:=Sample.host) (Sample.env_at 7) "m" (Some (JStr "x")) w = Returned tt w
  /\ success (H:=Sample.host) (Sample.env_at 7) "m" (Some (JStr "x")) w = Returned tt w.
Proof.
  exact (disabled_logger_is_silent Sample.host (Sample.env_at 7) "m"
           (Some (JStr "x")) (Sample.fresh (Some Sample.disabled)) eq_refl).
Defined.

(** C1. For a logger with capacity [maxLogs = C], enabled, after more than
    [C] calls of the logging methods, [getLogs()] returns exactly the
    entries of the [C] last calls, oldest first.  In particular a logger
    constructed with [maxLogs = 3] holds, after [info("a")], [info("b")],
    [info("c")], [info("d")], entries whose messages are ["b"; "c"; "d"], in
    that order. *)
Theorem buffer_keeps_most_recent :
  (forall (H : Host) (C : nat) (w : World) (calls : list LogCall),
      reachable w ->
      enabled (this w) = true ->
      maxLogs (this w) = Z.of_nat C ->
      (C < length calls)%nat ->
      let w' := run_logging calls w in
      getLogs w' = Returned (most_recent C (entry_of_call <$> calls)) w')
  /\
  (forall (H : Host) (options : Options) store out files
          (e1 e2 e3 e4 : Env) (d1 d2 d3 d4 : option jsval),
      opt_maxLogs options = Some (Num 3) ->
      opt_enabled options <> Some false ->
      let w := {| this := new_Logger (Some options); localStorage := store;
                  console := out; downloads := files |} in
      let w' := run_logging
                  [mkLogCall e1 LInfo "a" d1; mkLogCall e2 LInfo "b" d2;
                   mkLogCall e3 LInfo "c" d3; mkLogCall e4 LInfo "d" d4] w in
      exists entries,
        getLogs w' = Returned entries w' /\ message <$> entries = ["b"; "c"; "d"]).
Proof.
  assert (Hgeneral : forall (H : Host) (C : nat) (w : World) (calls : list LogCall),
      reachable w ->
      enabled (this w) = true ->
      maxLogs (this w) = Z.of_nat C ->
      (C < length calls)%nat ->
      logs (this (run_logging calls w)) = most_recent C (entry_of_call <$> calls)).
  { intros H C w calls Hreach Hon Hmax Hmore.
    rewrite run_logging_logs; [|done|by apply reachable_within_capacity].
    rewrite Hmax, Nat2Z.id.
    apply most_recent_app_ge. rewrite length_fmap. lia. }
  split.
  - intros H C w calls Hreach Hon Hmax Hmore w'.
    unfold getLogs, bind, get_this, ret. f_equal.
    by apply Hgeneral.
  - intros H options store out files e1 e2 e3 e4 d1 d2 d3 d4 Hmax Hon w w'.
    exists (logs (this w')). split; [done|].
    subst w'. rewrite (Hgeneral H 3%nat).
    + reflexivity.
    + apply reachable_new.
    + subst w. cbn. by destruct (opt_enabled options) as [[]|].
    + subst w. cbn. by rewrite Hmax.
    + cbn. lia.
Qed.

Lemma buffer_keeps_most_recent_witness :
  let calls := [mkLogCall (Sample.env_at 1) LInfo "a" None;
                mkLogCall (Sample.env_at 2) LWarn "b" None;
                mkLogCall (Sample.env_at 3) LError "c" None] in
  let w' := run_logging (H:=Sample.host) calls (Sample.fresh (Some (Sample.with_maxLogs 2))) in
  getLogs w' = Returned (most_recent 2 (entry_of_call <$> calls)) w'.
Proof.
  apply (proj1 buffer_keeps_most_recent Sample.host 2%nat).
  - apply (reachable_new (H:=Sample.host)).
  - reflexivity.
  - reflexivity.
  - cbn. lia.
Defined.

(** C7. The bound on the buffer is an invariant: whatever methods have been
    called on a logger with capacity [maxLogs = C] (a count) since its
    construction
    (the five logging methods, [startPerformance], [endPerformance],
    [getLogs], [clearLogs], [exportLogs]), its buffer holds at most [C]
    entries; and when a logging call appends to a buffer that already
    holds [C], the oldest entry is the one that goes. *)
Theorem buffer_never_exceeds_capacity (H : Host) (C : nat) (w : World) :
  reachable w ->
  maxLogs (this w) = Z.of_nat C ->
  (length (logs (this w)) <= C)%nat
  /\ forall (level : Level) (env : Env) (msg : string) (d : option jsval),
       enabled (this w) = true ->
       (C < length (logs (this w)) + 1)%nat ->
       exists oldest rest,
         logs (this w) = oldest :: rest
         /\ logs (this (world_of (logging_method level env msg d w))) =
            (rest ++ [logEntry_of env level msg (default JNull d)])%list.
Proof.
  intros Hreach Hmax.
  pose proof (reachable_within_capacity w Hreach) as Hcap.
  pose proof (reachable_maxLogs_nonzero w Hreach) as Hnz.
  unfold within_capacity in Hcap.
  split; [lia|].
  intros level env msg d Hon Hfull.
  destruct (logs (this w)) as [|oldest rest] eqn:Hlogs; [cbn in *; lia|].
  exists oldest, rest. split; [done|].
  rewrite logging_method_log, _log_this, Hon. cbn [logs set_logs].
  rewrite Hlogs. unfold appended.
  destruct (Z.gtb_spec (Z.of_nat (length ((oldest :: rest) ++
    [logEntry_of env level msg (default JNull d)]))) (maxLogs (this w))) as [_|Hle].
  - reflexivity.
  - rewrite length_app in Hle. cbn in *. lia.
Qed.

Lemma buffer_never_exceeds_capacity_witness :
  let w := run_logging (H:=Sample.host)
             [mkLogCall (Sample.env_at 1) LInfo "a" None;
              mkLogCall (Sample.env_at 2) LInfo "b" None]
             (Sample.fresh (Some (Sample.with_maxLogs 2))) in
  (length (logs (this w)) <= 2)%nat
  /\ forall (level : Level) (env : Env) (msg : string) (d : option jsval),
       enabled (this w) = true ->
       (2 < length (logs (this w)) + 1)%nat ->
       exists oldest rest,
         logs (this w) = oldest :: rest
         /\ logs (this (world_of (logging_method (H:=Sample.host) level env msg d w))) =
            (rest ++ [logEntry_of env level msg (default JNull d)])%list.
Proof.
  apply (buffer_never_exceeds_capacity Sample.host 2%nat).
  - apply (reachable_step (H:=Sample.host) (Sample.env_at 2) (call_log LInfo "b" None)).
    apply (reachable_step (H:=Sample.host) (Sample.env_at 1) (call_log LInfo "a" None)).
    apply (reachable_new (H:=Sample.host)).
  - reflexivity.
Defined.

(** C8. On an enabled logger that mirrors to storage, a logging call whose
    storage write throws still returns: the exception is caught where the
    write is made and shows up only as one [console.warn]; the store is
    left as it was, and the logger (its buffer with the entry this call
    appended) is exactly what the same call leaves when the write is
    accepted. *)
Theorem storage_failure_is_contained (H : Host) (level : Level) (env : Env)
    (msg : string) (d : option jsval) (w : World) :
  enabled (this w) = true ->
  logToStorage (this w) = true ->
  setItem_throws env = true ->
  exists (e : Exception) (w' : World),
    logging_method level env msg d w = Returned tt w'
    /\ this w' =
       this (world_of (logging_method level (storage_accepting env) msg d w))
    /\ logs (this w') =
       appended (maxLogs (this w)) (logs (this w))
         (logEntry_of env level msg (default JNull d))
    /\ localStorage w' = localStorage w
    /\ console w' =
       (console w ++ [storage_warning e] ++
        (if logToConsole (this w) then [console_line (this w) level msg d] else []))%list
    /\ downloads w' = downloads w.
Proof.
  intros Hon Hst Hthrow.
  destruct (_log_console_refused env level msg d w Hon Hst Hthrow) as [e Hconsole].
  destruct (_log_returns env level msg d w) as [w' Hw'].
  pose proof (_log_this env level msg d w) as Hthis.
  pose proof (_log_this (storage_accepting env) level msg d w) as Hthis_ok.
  pose proof (_log_localStorage env level msg d w) as Hstore.
  pose proof (_log_downloads env level msg d w) as Hdl.
  rewrite Hw' in Hconsole, Hthis, Hstore, Hdl. cbn [world_of] in *.
  rewrite Hon in Hthis, Hthis_ok.
  rewrite Hthrow, !andb_false_r in Hstore.
  exists e, w'. rewrite !logging_method_log.
  repeat split; try done.
  - by rewrite Hthis, Hthis_ok.
  - by rewrite Hthis.
Qed.

Lemma storage_failure_is_contained_witness :
  let w := Sample.fresh (Some Sample.site_options) in
  let env := Sample.env_full 12 in
  exists (e : Exception) (w' : World),
    logging_method (H:=Sample.host) LWarn env "quota" None w = Returned tt w'
    /\ this w' =
       this (world_of (logging_method (H:=Sample.host) LWarn (storage_accepting env) "quota" None w))
    /\ logs (this w') =
       appended (maxLogs (this w)) (logs (this w))
         (logEntry_of env LWarn "quota" (default JNull None))
    /\ localStorage w' = localStorage w
    /\ console w' =
       (console w ++ [storage_warning e] ++
        (if logToConsole (this w) then [console_line (this w) LWarn "quota" None] else []))%list
    /\ downloads w' = downloads w.
Proof.
  exact (storage_failure_is_contained Sample.host LWarn (Sample.env_full 12)
           "quota" None (Sample.fresh (Some Sample.site_options))
           eq_refl eq_refl eq_refl).
Defined.

(** ** Clearing *)

(** C6, as the specification has it, fails: the logger of
    [new Logger({ maxLogs: -1 })] is enabled, and after [clearLogs()] its
    buffer is empty, not the notice: line 30 pushes the notice, the length
    1 is over [maxLogs], and line 34 shifts the notice out again. *)
Lemma clearLogs_can_leave_an_enabled_logger_empty :
  ~ (forall (H : Host) (env : Env) (w : World),
        reachable w ->
        let w' := world_of (clearLogs env w) in
        (logs (this w') = [] \/ logs (this w') = [cleared_notice env])
        /\ (enabled (this w) = true -> logs (this w') = [cleared_notice env])).
Proof.
  intros Hclaim.
  destruct (Hclaim Sample.host (Sample.env_at 3)
              (Sample.fresh (Some (Sample.with_maxLogs (-1))))
              (reachable_new (H:=Sample.host) _ _ _ _)) as [_ Hon].
  specialize (Hon eq_refl). vm_compute in Hon. discriminate Hon.
Qed.

(** C6, amended. After [clearLogs()], from any state whatever, the buffer
    is either empty or holds the one info-level notice "Logs cleared",
    never more.  When [clearLogs()] returns on an enabled logger whose
    [maxLogs] is at least 1, the buffer holds the notice alone, appended
    after the buffer was emptied; on an enabled logger whose [maxLogs] is
    below 1, and on a disabled logger, it is empty. *)
Theorem clearLogs_leaves_at_most_the_notice (H : Host) (env : Env) (w : World) :
  (logs (this (world_of (clearLogs env w))) = []
   \/ logs (this (world_of (clearLogs env w))) = [cleared_notice env])
  /\ (forall w' : World,
        clearLogs env w = Returned tt w' ->
        (enabled (this w) = true -> 1 <= maxLogs (this w) ->
           logs (this w') = [cleared_notice env])
        /\ (enabled (this w) = true -> maxLogs (this w) < 1 ->
              logs (this w') = [])
        /\ (enabled (this w) = false -> logs (this w') = [])).
Proof.
  pose proof (clearLogs_logs env w) as Hlogs.
  rewrite appended_to_empty in Hlogs.
  split.
  - rewrite Hlogs.
    destruct (logToStorage (this w) && removeItem_throws env),
      (enabled (this w)), (0 <? maxLogs (this w)); auto.
  - intros w' Hret. rewrite Hret in Hlogs. cbn [world_of] in Hlogs.
    assert (Hok : logToStorage (this w) && removeItem_throws env = false).
    { destruct (logToStorage (this w) && removeItem_throws env) eqn:Hdenied; [|done].
      by rewrite (clearLogs_throws env w Hdenied) in Hret. }
    rewrite Hok in Hlogs.
    split; [|split].
    + intros Hon Hmax. rewrite Hlogs, Hon.
      destruct (Z.ltb_spec 0 (maxLogs (this w))); [done|lia].
    + intros Hon Hmax. rewrite Hlogs, Hon.
      destruct (Z.ltb_spec 0 (maxLogs (this w))); [lia|done].
    + intros Hoff. by rewrite Hlogs, Hoff.
Qed.

Lemma clearLogs_leaves_at_most_the_notice_witness :
  let w := run_logging (H:=Sample.host)
             [mkLogCall (Sample.env_at 1) LInfo "a" None;
              mkLogCall (Sample.env_at 2) LError "b" None]
             (Sample.fresh (Some Sample.site_options)) in
  logs (this (world_of (clearLogs (H:=Sample.host) (Sample.env_at 3) w))) =
  [cleared_notice (Sample.env_at 3)].
Proof.
  intros w.
  destruct (clearLogs_leaves_at_most_the_notice Sample.host (Sample.env_at 3) w)
    as [_ Hret].
  destruct (Hret (world_of (clearLogs (H:=Sample.host) (Sample.env_at 3) w)))
    as (Hon & _ & _).
  - vm_compute. reflexivity.
  - apply Hon.
    + reflexivity.
    + vm_compute. discriminate.
Defined.

(** C2, as the specification has it, fails: on the logger Script.js itself
    constructs (enabled, mirroring to storage), in a browser that accepts
    the write, the key [bdws_logs] is in the store when [clearLogs()]
    returns.  [clearLogs] does remove it, at line 114, but then logs "Logs
    cleared" at line 116, and that entry is mirrored like any other. *)
Lemma clearLogs_does_not_leave_the_key_absent :
  ~ (forall (H : Host) (env : Env) (w : World),
        logToStorage (this w) = true ->
        localStorage (world_of (clearLogs env w)) !! "bdws_logs" = None).
Proof.
  intros Hclaim.
  specialize (Hclaim Sample.host (Sample.env_at 3)
                (Sample.fresh (Some Sample.site_options)) eq_refl).
  vm_compute in Hclaim. discriminate Hclaim.
Qed.

(** C2, amended. With storage mirroring on, [clearLogs()] removes the
    persisted key and then mirrors the buffer again when it logs its
    notice.  When it returns, the store holds the key only if the logger is
    enabled and that last write went through, and then the key holds the
    serialization of the buffer as it is after the clear, nothing of what
    was persisted before; on a disabled logger, or when the write throws,
    the store does not contain the key. *)
Theorem clearLogs_persists_only_the_cleared_buffer (H : Host) (env : Env)
    (w w' : World) :
  logToStorage (this w) = true ->
  clearLogs env w = Returned tt w' ->
  (enabled (this w) = false -> localStorage w' !! "bdws_logs" = None)
  /\ (enabled (this w) = true -> setItem_throws env = true ->
        localStorage w' !! "bdws_logs" = None)
  /\ (enabled (this w) = true -> setItem_throws env = false ->
        localStorage w' !! "bdws_logs" = JSON_stringify (logs (this w'))
        /\ logs (this w') =
           appended (maxLogs (this w)) [] (cleared_notice env)).
Proof.
  intros Hst Hret.
  assert (Hok : logToStorage (this w) && removeItem_throws env = false).
  { destruct (logToStorage (this w) && removeItem_throws env) eqn:Hdenied; [|done].
    by rewrite (clearLogs_throws env w Hdenied) in Hret. }
  assert (Hw' : w' = world_of (clearLogs env w)) by (by rewrite Hret).
  pose proof (clearLogs_logs env w) as Hlogs.
  rewrite Hok, <- Hw' in Hlogs.
  assert (Hstore : localStorage w' =
    if enabled (this w) && negb (setItem_throws env)
    then match JSON_stringify (logs (this w')) with
         | Some s => <["bdws_logs" := s]> (delete "bdws_logs" (localStorage w))
         | None => delete "bdws_logs" (localStorage w)
         end
    else delete "bdws_logs" (localStorage w)).
  { rewrite Hw', clearLogs_unfold, Hok, Hst, _log_localStorage. cbn.
    rewrite Hst, andb_true_r. done. }
  split; [|split].
  - intros Hoff. rewrite Hstore, Hoff. cbn. apply lookup_delete_eq.
  - intros Hon Hthrow. rewrite Hstore, Hon, Hthrow. cbn. apply lookup_delete_eq.
  - intros Hon Haccept. split.
    + rewrite Hstore, Hon, Haccept. cbn.
      destruct (JSON_stringify (logs (this w'))).
      * apply lookup_insert_eq.
      * apply lookup_delete_eq.
    + by rewrite Hlogs, Hon.
Qed.

Lemma clearLogs_persists_only_the_cleared_buffer_witness :
  let w := Sample.fresh (Some Sample.site_options) in
  let env := Sample.env_at 3 in
  let w' := world_of (clearLogs (H:=Sample.host) env w) in
  localStorage w' !! "bdws_logs" = Some "[Logs cleared]"
  /\ logs (this w') = [cleared_notice env].
Proof.
  intros w env w'.
  assert (Hret : clearLogs (H:=Sample.host) env w = Returned tt w').
  { vm_compute. reflexivity. }
  destruct (clearLogs_persists_only_the_cleared_buffer Sample.host env w w'
              eq_refl Hret) as (_ & _ & Hon).
  destruct (Hon eq_refl eq_refl) as [Hstore Hlogs].
  split.
  - rewrite Hstore, Hlogs. reflexivity.
  - rewrite Hlogs. reflexivity.
Defined.

(** ** Timing *)

(** C4, evaluated on the code where it fails.  (1) The label [__proto__]:
    the assignment at line 92 reaches the setter inherited from
    [Object.prototype], which ignores a number, so nothing is recorded;
    the lookup at line 97 finds the prototype object, which is truthy, and
    the value returned is [now - object], that is [NaN], which is not
    [>= 0].  (2) A label started while [performance.now()] reads 0: the
    mark is stored, the test at line 97 finds it falsy, and
    [endPerformance] returns nothing and leaves the mark pending. *)
Theorem startPerformance_endPerformance_misses (H : Host)
    (options : option Options) (store : gmap string string)
    (out : list ConsoleCall) (files : list (string * string))
    (env0 env1 : Env) (stamp agent href : string) (refuses denies : bool) :
  let w := {| this := new_Logger options; localStorage := store;
              console := out; downloads := files |} in
  (let w1 := world_of (startPerformance env0 "__proto__" w) in
   performanceMarks (this w1) = ∅
   /\ value_of (endPerformance env1 "__proto__" w1) = Some (Some NaN)
   /\ number_nonneg NaN = false)
  /\
  (let at_zero := {| now_iso := stamp; performance_now := 0;
                    navigator_userAgent := agent; location_href := href;
                    setItem_throws := refuses;
                    removeItem_throws := denies |} in
   let w1 := world_of (startPerformance at_zero "x" w) in
   performanceMarks (this w1) !! "x" = Some 0
   /\ endPerformance env1 "x" w1 = Returned None w1).
Proof.
  intros w. split.
  - intros w1.
    assert (Hmarks : performanceMarks (this w1) = ∅).
    { subst w1. by rewrite startPerformance_marks. }
    split; [done|]. split; [|done].
    rewrite endPerformance_value. cbn zeta. by rewrite Hmarks.
  - intros at_zero w1.
    assert (Hmark : performanceMarks (this w1) !! "x" = Some 0).
    { subst w1. by rewrite startPerformance_last_wins. }
    split; [done|].
    rewrite endPerformance_unfold. cbn zeta.
    unfold marks_get. by rewrite Hmark.
Qed.

(** C5, evaluated on the code where it fails.  On a logger fresh from
    [new Logger()], where no label was ever started, [endPerformance] of
    the label [toString] finds the function inherited from
    [Object.prototype] at line 97, which is truthy: it returns [NaN]
    instead of nothing and appends an info entry to the buffer. *)
Theorem endPerformance_of_an_inherited_name (H : Host)
    (store : gmap string string) (out : list ConsoleCall)
    (files : list (string * string)) (env : Env) :
  let w := {| this := new_Logger None; localStorage := store;
              console := out; downloads := files |} in
  performanceMarks (this w) !! "toString" = None
  /\ logs (this w) = []
  /\ exists w' : World,
       endPerformance env "toString" w = Returned (Some NaN) w'
       /\ logs (this w') =
          [logEntry_of env LInfo
             ("Performance: toString completed in " ++ toFixed2 NaN ++ "ms") JNull].
Proof.
  intros w. split; [done|]. split; [done|].
  rewrite endPerformance_unfold. cbn zeta.
  eexists. split; [reflexivity|].
  cbn -[_log]. by rewrite _log_this.
Qed.

(** C10. On a logger whose [enabled] is false, [startPerformance(label)]
    changes the mark mapping exactly as the assignment at line 92 does and
    nothing else, and [endPerformance(label)] returns the duration and
    deletes the mark, changing nothing else: the flag keeps the two log
    entries out and leaves the marks and the value returned as they are on
    an enabled logger.  For a label other than [__proto__] started at a
    nonzero clock reading, the mark is recorded, the duration returned is
    the difference of the two readings, and the mark is gone afterwards. *)
Theorem disabled_logger_still_times (H : Host) (env0 env1 : Env)
    (label : string) (w : World) :
  enabled (this w) = false ->
  let marked :=
    set_this (set_performanceMarks
                (marks_set (performanceMarks (this w)) label (performance_now env0))
                (this w)) w in
  let unmarked :=
    set_this (set_performanceMarks
                (marks_delete (performanceMarks (this marked)) label)
                (this marked)) marked in
  startPerformance env0 label w = Returned tt marked
  /\ (forall w_on : World,
        performanceMarks (this w_on) = performanceMarks (this w) ->
        performanceMarks (this (world_of (startPerformance env0 label w_on))) =
          performanceMarks (this marked)
        /\ value_of (endPerformance env1 label w_on) =
           value_of (endPerformance env1 label w)
        /\ performanceMarks (this (world_of (endPerformance env1 label w_on))) =
           performanceMarks (this (world_of (endPerformance env1 label w))))
  /\ (label <> "__proto__" -> performance_now env0 <> 0 ->
        performanceMarks (this marked) !! label = Some (performance_now env0)
        /\ endPerformance env1 label marked =
           Returned (Some (Num (performance_now env1 - performance_now env0))) unmarked
        /\ performanceMarks (this unmarked) !! label = None
        /\ logs (this unmarked) = logs (this w)
        /\ localStorage unmarked = localStorage w
        /\ console unmarked = console w).
Proof.
  intros Hoff marked unmarked.
  assert (Hstart : startPerformance env0 label w = Returned tt marked).
  { rewrite startPerformance_unfold. by apply _log_disabled. }
  split; [done|]. split.
  - intros w_on Hsame. split; [|split].
    + by rewrite startPerformance_marks, Hsame.
    + by rewrite !endPerformance_value, Hsame.
    + by rewrite !endPerformance_marks, Hsame.
  - intros Hlabel Ht0.
    pose proof (startPerformance_last_wins env0 label w Hlabel) as Hmark.
    rewrite Hstart in Hmark. cbn [world_of] in Hmark.
    split; [done|]. split; [|split; [|done]].
    + rewrite endPerformance_unfold. cbn zeta.
      unfold marks_get. rewrite Hmark. cbn [mark_truthy mark_to_number number_sub].
      destruct (Z.eqb_spec (performance_now env0) 0) as [|_]; [done|].
      cbn [negb]. by rewrite _log_disabled.
    + apply lookup_delete_eq.
Qed.

Lemma disabled_logger_still_times_witness :
  let w := Sample.fresh (Some Sample.disabled) in
  let w1 := world_of (startPerformance (H:=Sample.host) (Sample.env_at 1500) "gallery-init" w) in
  performanceMarks (this w1) !! "gallery-init" = Some 1500
  /\ value_of (endPerformance (H:=Sample.host) (Sample.env_at 4250) "gallery-init" w1) =
     Some (Some (Num 2750)).
Proof.
  intros w w1.
  destruct (disabled_logger_still_times Sample.host (Sample.env_at 1500)
              (Sample.env_at 4250) "gallery-init" w eq_refl)
    as (Hstart & _ & Hend).
  destruct Hend as (Hmark & Hret & _); [done|done|].
  subst w1. rewrite Hstart. cbn [world_of]. split; [exact Hmark|].
  rewrite Hret. reflexivity.
Defined.

(** * More of the logger *)

Section LoggerEffects.
Context {H : Host}.


(** A log call leaves every key but [bdws_logs] alone. *)
Lemma _log_other_keys env level msg d w key :
  key <> "bdws_logs" ->
  localStorage (world_of (_log env level msg d w)) !! key = localStorage w !! key.
Proof.
  intros Hkey. rewrite _log_localStorage.
  destruct (_ && _); [|done].
  destruct (JSON_stringify _); [|done].
  by rewrite lookup_insert_ne.
Qed.

Lemma step_other_keys env c w key :
  key <> "bdws_logs" ->
  localStorage (step env c w) !! key = localStorage w !! key.
Proof.
  intros Hkey. unfold step. destruct c; cbn [perform].
  - rewrite logging_method_log. by apply _log_other_keys.
  - rewrite startPerformance_unfold. by rewrite _log_other_keys.
  - unfold bind. rewrite endPerformance_unfold. cbn zeta.
    destruct (mark_truthy _); [|done].
    cbn -[_log]. by rewrite _log_other_keys.
  - done.
  - rewrite clearLogs_unfold.
    destruct (logToStorage (this w) && removeItem_throws env); [done|].
    rewrite _log_other_keys by done.
    destruct (logToStorage (this w)); [|done].
    cbn. by rewrite lookup_delete_ne.
  - rewrite exportLogs_unfold.
    destruct (JSON_stringify_pretty _); [|done].
    by rewrite _log_other_keys.
Qed.

Lemma step_storage_off env c w :
  logToStorage (this w) = false ->
  localStorage (step env c w) = localStorage w.
Proof.
  intros Hoff. unfold step. destruct c; cbn [perform].
  - rewrite logging_method_log, _log_localStorage, Hoff.
    by rewrite andb_false_r.
  - rewrite startPerformance_unfold, _log_localStorage. cbn.
    by rewrite Hoff, andb_false_r.
  - unfold bind. rewrite endPerformance_unfold. cbn zeta.
    destruct (mark_truthy _); [|done].
    cbn -[_log]. rewrite _log_localStorage, Hoff. by rewrite andb_false_r.
  - done.
  - rewrite clearLogs_unfold, Hoff. cbn [andb].
    rewrite _log_localStorage. cbn.
    by rewrite Hoff, andb_false_r.
  - rewrite exportLogs_unfold.
    destruct (JSON_stringify_pretty _); [|done].
    rewrite _log_localStorage. cbn. by rewrite Hoff, andb_false_r.
Qed.

Lemma run_calls_config cs : forall w,
  config (this (run_calls cs w)) = config (this w).
Proof.
  induction cs as [|[env c] cs IH]; intros w; cbn [run_calls]; [done|].
  by rewrite IH, step_config.
Qed.
End LoggerEffects.

(** X1. Below its capacity the buffer drops nothing: on an enabled logger
    with [maxLogs = C], logging calls that bring the buffer to at most [C]
    entries leave the old entries followed by the new ones, in call
    order. *)
Theorem buffer_below_capacity_keeps_everything (H : Host) (C : nat) (w : World)
    (calls : list LogCall) :
  enabled (this w) = true ->
  maxLogs (this w) = Z.of_nat C ->
  (length (logs (this w)) + length calls <= C)%nat ->
  logs (this (run_logging calls w)) =
  (logs (this w) ++ (entry_of_call <$> calls))%list.
Proof.
  intros Hon Hmax Hroom.
  rewrite run_logging_logs; [|done|unfold within_capacity; lia].
  apply most_recent_all. rewrite length_app, length_fmap. lia.
Qed.

Lemma buffer_below_capacity_keeps_everything_witness :
  let calls := [mkLogCall (Sample.env_at 1) LInfo "a" None;
                mkLogCall (Sample.env_at 2) LDebug "b" (Some (JBool true))] in
  let w := Sample.fresh (Some (Sample.with_maxLogs 2)) in
  logs (this (run_logging (H:=Sample.host) calls w)) =
  (logs (this w) ++ (entry_of_call <$> calls))%list.
Proof.
  apply (buffer_below_capacity_keeps_everything Sample.host 2%nat).
  - reflexivity.
  - reflexivity.
  - cbn. lia.
Defined.

(** X2. The persisted value is the current buffer and nothing else: after a
    logging call on an enabled logger that mirrors to storage, when the
    serialization and the write go through, the key [bdws_logs] holds the
    serialization of the buffer as the call left it, whatever the store
    held before. *)
Theorem store_mirrors_buffer (H : Host) (level : Level) (env : Env)
    (msg : string) (d : option jsval) (w : World) (s : string) :
  enabled (this w) = true ->
  logToStorage (this w) = true ->
  setItem_throws env = false ->
  let w' := world_of (logging_method level env msg d w) in
  JSON_stringify (logs (this w')) = Some s ->
  localStorage w' !! "bdws_logs" = Some s.
Proof.
  intros Hon Hst Haccept w' Hjson. subst w'.
  rewrite logging_method_log in *.
  rewrite _log_localStorage, Hon, Hst, Haccept, Hjson. cbn.
  apply lookup_insert_eq.
Qed.

Lemma store_mirrors_buffer_witness :
  let stale := {| this := new_Logger (Some Sample.site_options);
                  localStorage := {[ "bdws_logs" := "[yesterday]" ]};
                  console := []; downloads := [] |} in
  localStorage (world_of (logging_method (H:=Sample.host) LInfo (Sample.env_at 1)
                            "BDWS Website initialized" None stale))
    !! "bdws_logs" = Some "[BDWS Website initialized]".
Proof.
  apply (store_mirrors_buffer Sample.host LInfo (Sample.env_at 1)
           "BDWS Website initialized" None); reflexivity.
Defined.

(** X3. The logger owns one key: whatever methods are called, every key of
    [localStorage] other than [bdws_logs] holds what it held. *)
Theorem other_keys_are_untouched (H : Host) (cs : list (Env * Call)) (w : World)
    (key : string) :
  key <> "bdws_logs" ->
  localStorage (run_calls cs w) !! key = localStorage w !! key.
Proof.
  intros Hkey. revert w.
  induction cs as [|[env c] cs IH]; intros w; cbn [run_calls]; [done|].
  by rewrite IH, step_other_keys.
Qed.

Lemma other_keys_are_untouched_witness :
  let w := {| this := new_Logger (Some Sample.site_options);
              localStorage := {[ "theme" := "dark" ]};
              console := []; downloads := [] |} in
  localStorage (run_calls (H:=Sample.host)
                  [(Sample.env_at 1, call_log LInfo "a" None);
                   (Sample.env_at 2, call_clearLogs);
                   (Sample.env_at 3, call_exportLogs "now")] w) !! "theme" =
  localStorage w !! "theme".
Proof.
  apply (other_keys_are_untouched Sample.host). done.
Defined.

(** X4. Without the [storage] option the logger never writes to or removes
    from [localStorage]: no sequence of method calls, [clearLogs] included,
    changes the store. *)
Theorem storage_off_leaves_store (H : Host) (cs : list (Env * Call)) (w : World) :
  logToStorage (this w) = false ->
  localStorage (run_calls cs w) = localStorage w.
Proof.
  revert w.
  induction cs as [|[env c] cs IH]; intros w Hoff; cbn [run_calls]; [done|].
  rewrite IH.
  - by apply step_storage_off.
  - pose proof (step_config env c w) as Hc. unfold config in Hc.
    injection Hc as _ _ _ _ Hst _. by rewrite Hst.
Qed.

Lemma storage_off_leaves_store_witness :
  let w := {| this := new_Logger None;
              localStorage := {[ "bdws_logs" := "[kept]" ]};
              console := []; downloads := [] |} in
  localStorage (run_calls (H:=Sample.host)
                  [(Sample.env_at 1, call_log LWarn "a" None);
                   (Sample.env_at 2, call_clearLogs)] w) = localStorage w.
Proof.
  apply (storage_off_leaves_store Sample.host). reflexivity.
Defined.





Section LevelOption.
Context {H : Host}.

Lemma _log_with_level s env level msg d w :
  _log env level msg d (with_level s w) = 
  match _log env level msg d w with
  | Returned a w' => Returned a (with_level s w')
  | Thrown e w' => Thrown e (with_level s w')
  end.
Proof.
  destruct w as [[on lv pf toConsole toStorage max buffer marks] store out files].
  unfold _log, with_level. unfold_monad. cbn.
  repeat (split_if; cbn); reflexivity.
Qed.

Lemma step_with_level s env c w :
  step env c (with_level s w) = with_level s (step env c w).
Proof.
  unfold step. destruct c; cbn [perform].
  - rewrite logging_method_log, _log_with_level.
    by destruct (_log env level0 message0 data0 w).
  - rewrite !startPerformance_unfold.
    change (set_this _ (with_level s w)) with
      (with_level s (set_this (set_performanceMarks
         (marks_set (performanceMarks (this w)) label (performance_now env))
         (this w)) w)).
    rewrite _log_with_level. by destruct (_log _ _ _ _ _).
  - unfold bind. rewrite !endPerformance_unfold. cbn zeta.
    change (performanceMarks (this (with_level s w))) with (performanceMarks (this w)).
    destruct (mark_truthy _); [|done].
    rewrite _log_with_level.
    destruct (_log_returns env LInfo
      ("Performance: " ++ label ++ " completed in " ++
       toFixed2 (number_sub (Num (performance_now env))
                   (mark_to_number (marks_get (performanceMarks (this w)) label))) ++ "ms")
      None w) as [w' Hw'].
    rewrite Hw'. reflexivity.
  - done.
  - rewrite !clearLogs_unfold.
    change (logToStorage (this (with_level s w))) with (logToStorage (this w)).
    destruct (logToStorage (this w) && removeItem_throws env); [done|].
    destruct (logToStorage (this w)).
    + change (set_localStorage _ _) with
        (with_level s (set_localStorage (delete "bdws_logs" (localStorage w))
                         (set_this (set_logs [] (this w)) w))) at 1.
      rewrite _log_with_level. by destruct (_log _ _ _ _ _).
    + change (set_this (set_logs [] (this (with_level s w))) (with_level s w)) with
        (with_level s (set_this (set_logs [] (this w)) w)).
      rewrite _log_with_level. by destruct (_log _ _ _ _ _).
  - rewrite !exportLogs_unfold.
    change (logs (this (with_level s w))) with (logs (this w)).
    destruct (JSON_stringify_pretty _) as [dataStr|]; [|done].
    change (set_downloads _ (with_level s w)) with
      (with_level s (set_downloads
         (downloads w ++ [("bdws-logs-" ++ stamp ++ ".json", dataStr)]) w)).
    rewrite _log_with_level. by destruct (_log _ _ _ _ _).
Qed.
End LevelOption.

(** X7. The [level] option is never read: constructing the logger with
    another [level] changes no behaviour.  Any sequence of method calls
    leaves the buffer, the marks, the store, the console and the downloads
    exactly as with the other value; only the stored option differs. *)
Theorem level_option_is_never_read (H : Host) (s : string)
    (cs : list (Env * Call)) (w : World) :
  run_calls cs (with_level s w) = with_level s (run_calls cs w).
Proof.
  revert w.
  induction cs as [|[env c] cs IH]; intros w; cbn [run_calls]; [done|].
  by rewrite step_with_level, IH.
Qed.

(** X8. The configuration is fixed at construction: no sequence of method
    calls changes [enabled], [level], [prefix], [console], [storage] or
    [maxLogs]; and whatever the options were, the prefix and the level of
    a constructed logger are never empty and its [maxLogs] is never 0. *)
Theorem configuration_is_fixed (H : Host) (options : option Options)
    (store : gmap string string) (out : list ConsoleCall)
    (files : list (string * string)) (cs : list (Env * Call)) :
  let w := {| this := new_Logger options; localStorage := store;
              console := out; downloads := files |} in
  config (this (run_calls cs w)) = config (new_Logger options)
  /\ prefix (this (run_calls cs w)) <> ""
  /\ minLevel (this (run_calls cs w)) <> ""
  /\ maxLogs (this (run_calls cs w)) <> 0.
Proof.
  intros w.
  pose proof (run_calls_config cs w) as Hc.
  split; [done|].
  unfold config in Hc. injection Hc as _ Hlevel Hprefix _ _ Hmax.
  rewrite Hlevel, Hprefix, Hmax. subst w. cbn.
  assert (Hstr : forall x d, d <> "" -> string_or x d <> "").
  { intros [x|] d Hd; cbn; [|done].
    destruct (String.eqb_spec x ""); done. }
  split; [by apply Hstr|]. split; [by apply Hstr|].
  apply new_Logger_maxLogs_nonzero.
Qed.

(** X9. [exportLogs] hands the browser one file, named after the clock
    reading, whose content is the pretty-printed buffer as it was when the
    method was called; the success entry is logged after that and is not
    in the file.  The export does not depend on [enabled]: a disabled
    logger downloads its buffer and logs nothing. *)
Theorem exportLogs_downloads_the_buffer (H : Host) (stamp : string) (env : Env)
    (w : World) (dataStr : string) :
  JSON_stringify_pretty (logs (this w)) = Some dataStr ->
  exists w' : World,
    exportLogs stamp env w = Returned tt w'
    /\ downloads w' =
       (downloads w ++ [(("bdws-logs-" ++ stamp ++ ".json")%string, dataStr)])%list
    /\ logs (this w') =
       if enabled (this w)
       then appended (maxLogs (this w)) (logs (this w))
              (logEntry_of env LSuccess "Logs exported successfully" JNull)
       else logs (this w).
Proof.
  intros Hjson. rewrite exportLogs_unfold, Hjson.
  destruct (_log_returns env LSuccess "Logs exported successfully" None
              (set_downloads
                 (downloads w ++ [("bdws-logs-" ++ stamp ++ ".json", dataStr)]) w))
    as [w' Hw'].
  pose proof (_log_downloads env LSuccess "Logs exported successfully" None
                (set_downloads
                   (downloads w ++ [("bdws-logs-" ++ stamp ++ ".json", dataStr)]) w))
    as Hdl.
  pose proof (_log_this env LSuccess "Logs exported successfully" None
                (set_downloads
                   (downloads w ++ [("bdws-logs-" ++ stamp ++ ".json", dataStr)]) w))
    as Hthis.
  rewrite Hw' in Hdl, Hthis |- *. cbn in Hdl, Hthis.
  exists w'. split; [done|]. split; [done|].
  rewrite Hthis. by destruct (enabled (this w)).
Qed.

Lemma exportLogs_downloads_the_buffer_witness :
  let w := run_logging (H:=Sample.host)
             [mkLogCall (Sample.env_at 1) LInfo "a" None;
              mkLogCall (Sample.env_at 2) LInfo "b" None]
             (Sample.fresh None) in
  exists w' : World,
    exportLogs (H:=Sample.host) "2024-01-01T00:00:03.000Z" (Sample.env_at 3) w =
      Returned tt w'
    /\ downloads w' = [("bdws-logs-2024-01-01T00:00:03.000Z.json", "[a,b]")]
    /\ message <$> logs (this w') = ["a"; "b"; "Logs exported successfully"].
Proof.
  intros w.
  destruct (exportLogs_downloads_the_buffer Sample.host "2024-01-01T00:00:03.000Z"
              (Sample.env_at 3) w "[a,b]" eq_refl) as (w' & Hret & Hdl & Hlogs).
  exists w'. split; [exact Hret|]. split; [exact Hdl|].
  rewrite Hlogs. reflexivity.
Defined.

(** X10. Unlike the storage write, the serialization in [exportLogs] is not
    guarded: when [JSON.stringify] throws on the buffer, [exportLogs]
    throws the [TypeError] to its caller, and nothing was downloaded,
    logged or printed. *)
Theorem exportLogs_throws_on_unserializable_buffer (H : Host) (stamp : string)
    (env : Env) (w : World) :
  JSON_stringify_pretty (logs (this w)) = None ->
  exportLogs stamp env w = Thrown TypeError w.
Proof. intros Hjson. by rewrite exportLogs_unfold, Hjson. Qed.

Lemma exportLogs_throws_on_unserializable_buffer_witness :
  let w := world_of (info (H:=Cyclic.host) (Sample.env_at 1) "loop"
                       (Some Cyclic.payload) (Sample.fresh None)) in
  exportLogs (H:=Cyclic.host) "now" (Sample.env_at 2) w = Thrown TypeError w.
Proof.
  apply (exportLogs_throws_on_unserializable_buffer Cyclic.host). reflexivity.
Defined.

(** X11. Only a download changes the downloads: every method other than
    [exportLogs] leaves them as they were. *)
Theorem only_exportLogs_downloads (H : Host) (env : Env) (c : Call) (w : World) :
  (forall stamp, c <> call_exportLogs stamp) ->
  downloads (step env c w) = downloads w.
Proof.
  intros Hc. unfold step. destruct c; cbn [perform].
  - rewrite logging_method_log. apply _log_downloads.
  - rewrite startPerformance_unfold. by rewrite _log_downloads.
  - unfold bind. rewrite endPerformance_unfold. cbn zeta.
    destruct (mark_truthy _); [|done].
    cbn -[_log]. by rewrite _log_downloads.
  - done.
  - rewrite clearLogs_unfold.
    destruct (logToStorage (this w) && removeItem_throws env); [done|].
    rewrite _log_downloads. by destruct (logToStorage (this w)).
  - by destruct (Hc stamp).
Qed.

Lemma only_exportLogs_downloads_witness :
  downloads (step (H:=Sample.host) (Sample.env_at 1) call_clearLogs
               (Sample.fresh (Some Sample.site_options))) =
  downloads (Sample.fresh (Some Sample.site_options)).
Proof.
  apply (only_exportLogs_downloads Sample.host). done.
Defined.

(** ** More of the timing methods *)

Lemma world_of_discard {A} (m : M A) w :
  world_of ((m ;; ret tt) w) = world_of (m w).
Proof. unfold bind. by destruct (m w). Qed.

Lemma marks_set_other marks label t other :
  other <> label -> marks_set marks label t !! other = marks !! other.
Proof.
  intros Hne. unfold marks_set.
  destruct (marks !! label); [by rewrite lookup_insert_ne|].
  destruct (bool_decide _); [done|by rewrite lookup_insert_ne].
Qed.

(** X12. A pending timing is touched only through its own label: the mark
    of a label stays as it is under every method call that is not
    [startPerformance] or [endPerformance] of that very label.  Logging,
    exporting and [clearLogs] in particular drop no pending mark. *)
Theorem marks_change_only_through_their_label (H : Host) (env : Env) (c : Call)
    (w : World) (label : string) :
  c <> call_startPerformance label ->
  c <> call_endPerformance label ->
  performanceMarks (this (step env c w)) !! label =
  performanceMarks (this w) !! label.
Proof.
  intros Hstart Hend. unfold step. destruct c as [lv m d|l|l| | |stamp]; cbn [perform].
  - by rewrite logging_method_log, _log_marks.
  - rewrite startPerformance_marks. apply marks_set_other. congruence.
  - rewrite world_of_discard, endPerformance_marks.
    destruct (mark_truthy _); [|done].
    unfold marks_delete. rewrite lookup_delete_ne; [done|congruence].
  - done.
  - rewrite clearLogs_unfold.
    destruct (logToStorage (this w) && removeItem_throws env); [done|].
    rewrite _log_marks. by destruct (logToStorage (this w)).
  - rewrite exportLogs_unfold.
    destruct (JSON_stringify_pretty _); [|done].
    by rewrite _log_marks.
Qed.

Lemma marks_change_only_through_their_label_witness :
  let w := world_of (startPerformance (H:=Sample.host) (Sample.env_at 40)
                       "page-load" (Sample.fresh None)) in
  performanceMarks (this (step (H:=Sample.host) (Sample.env_at 50) call_clearLogs w))
    !! "page-load" =
  performanceMarks (this w) !! "page-load".
Proof.
  apply (marks_change_only_through_their_label Sample.host); done.
Defined.

(** X13. Ending a timing twice: once a label (no member of
    [Object.prototype]) started at a nonzero reading has been ended, a
    second [endPerformance] of it returns nothing and changes nothing at
    all. *)
Theorem second_endPerformance_is_a_no_op (H : Host) (env0 env1 env2 : Env)
    (label : string) (w : World) :
  label ∉ Object_prototype_keys ->
  performance_now env0 <> 0 ->
  let w1 := world_of (startPerformance env0 label w) in
  let w2 := world_of (endPerformance env1 label w1) in
  endPerformance env2 label w2 = Returned None w2.
Proof.
  intros Hproto Ht0 w1 w2.
  apply endPerformance_unknown; [|done].
  apply (start_then_end env0 env1 label w); [|done].
  intros ->. apply Hproto. by apply (bool_decide_unpack _).
Qed.

Lemma second_endPerformance_is_a_no_op_witness :
  let w1 := world_of (startPerformance (H:=Sample.host) (Sample.env_at 40)
                        "gallery-init" (Sample.fresh None)) in
  let w2 := world_of (endPerformance (H:=Sample.host) (Sample.env_at 90)
                        "gallery-init" w1) in
  endPerformance (H:=Sample.host) (Sample.env_at 95) "gallery-init" w2 =
  Returned None w2.
Proof.
  apply (second_endPerformance_is_a_no_op Sample.host (Sample.env_at 40)
           (Sample.env_at 90) (Sample.env_at 95) "gallery-init" (Sample.fresh None)).
  - apply (bool_decide_eq_false_1 ("gallery-init" ∈ Object_prototype_keys)).
    reflexivity.
  - done.
Defined.

Lemma appended_with_room max ls e :
  Z.of_nat (length ls) < max -> appended max ls e = (ls ++ [e])%list.
Proof.
  intros Hroom. unfold appended.
  destruct (Z.gtb_spec (Z.of_nat (length (ls ++ [e]))) max) as [Hgt|]; [|done].
  rewrite length_app in Hgt. cbn in Hgt. lia.
Qed.

(** X14. What a timing leaves in the log: on an enabled logger with room
    for two more entries, [startPerformance] then [endPerformance] of a
    label (other than [__proto__], started at a nonzero reading) append a
    debug entry "Performance tracking started: label" and an info entry
    "Performance: label completed in ...ms" carrying the difference of the
    two readings through [toFixed(2)], in that order. *)
Theorem timing_logs_two_entries (H : Host) (C : nat) (env0 env1 : Env)
    (label : string) (w : World) :
  enabled (this w) = true ->
  maxLogs (this w) = Z.of_nat C ->
  (length (logs (this w)) + 2 <= C)%nat ->
  label <> "__proto__" ->
  performance_now env0 <> 0 ->
  let w1 := world_of (startPerformance env0 label w) in
  let w2 := world_of (endPerformance env1 label w1) in
  logs (this w2) =
  (logs (this w) ++
   [started_entry env0 label;
    completed_entry env1 label
      (Num (performance_now env1 - performance_now env0))])%list.
Proof.
  intros Hon Hmax Hroom Hlabel Ht0 w1 w2.
  assert (Hthis1 : this w1 =
    set_logs (logs (this w) ++ [started_entry env0 label])
      (set_performanceMarks
         (marks_set (performanceMarks (this w)) label (performance_now env0))
         (this w))).
  { subst w1. rewrite startPerformance_unfold, _log_this. cbn -[appended].
    rewrite Hon, appended_with_room by lia. done. }
  pose proof (startPerformance_last_wins env0 label w Hlabel) as Hmark.
  fold w1 in Hmark.
  subst w2. rewrite endPerformance_unfold. cbn zeta.
  unfold marks_get. rewrite Hmark. cbn [mark_truthy mark_to_number number_sub].
  destruct (Z.eqb_spec (performance_now env0) 0) as [|_]; [done|].
  cbn -[_log]. rewrite _log_this, Hthis1. cbn -[appended].
  rewrite Hon, appended_with_room.
  - by rewrite <- app_assoc.
  - rewrite length_app. cbn. lia.
Qed.

Lemma timing_logs_two_entries_witness :
  let w := Sample.fresh None in
  let w1 := world_of (startPerformance (H:=Sample.host) (Sample.env_at 1500)
                        "gallery-init" w) in
  let w2 := world_of (endPerformance (H:=Sample.host) (Sample.env_at 4256)
                        "gallery-init" w1) in
  message <$> logs (this w2) =
  ["Performance tracking started: gallery-init";
   "Performance: gallery-init completed in 2.76ms"].
Proof.
  intros w w1 w2.
  pose proof (timing_logs_two_entries Sample.host 100%nat (Sample.env_at 1500)
                (Sample.env_at 4256) "gallery-init" w eq_refl eq_refl) as Hlogs.
  cbv zeta in Hlogs. subst w2 w1. rewrite Hlogs.
  - reflexivity.
  - cbn. lia.
  - done.
  - done.
Defined.

(** X15. The five severities are told apart on the console: no two levels
    share a style, nor a tag. *)
Theorem levels_are_distinguished (l1 l2 : Level) :
  (_getLogStyle l1 = _getLogStyle l2 -> l1 = l2)
  /\ (toUpperCase (level_name l1) = toUpperCase (level_name l2) -> l1 = l2).
Proof. split; destruct l1, l2; cbn; intros Heq; done. Qed.

(** * The portfolio gallery *)

Section ClassLists.
Implicit Types classes : list string.

Lemma elem_of_classList_remove token classes t :
  t ∈ classList_remove token classes <-> t ∈ classes /\ t <> token.
Proof.
  unfold classList_remove. rewrite !list_elem_of_In, filter_In.
  destruct (String.eqb_spec t token) as [Heq|Hne]; cbn; intuition congruence.
Qed.

Lemma elem_of_classList_add token classes t :
  t ∈ classList_add token classes <-> t = token \/ t ∈ classes.
Proof.
  unfold classList_add. case_bool_decide as Hin.
  - split; [by right|]. by intros [->|].
  - rewrite elem_of_app, list_elem_of_singleton. tauto.
Qed.
End ClassLists.

Section Gallery.
Context {H : Host}.

Lemma info_returns env msg d w :
  info env msg d w = Returned tt (world_of (info env msg d w)).
Proof. unfold info. by destruct (_log_returns env LInfo msg d w) as [w' ->]. Qed.

Lemma renderGallery_unfold env filter g old w :
  gallery g = Some old ->
  let name := default "all" filter in
  let shown :=
    if String.eqb name "all" then images g
    else List.filter (fun img => String.eqb (category img) name) (images g) in
  renderGallery env filter g w =
  Returned (set_gallery (Some (imap gallery_item shown)) g)
    (world_of (info env ("Rendering gallery with filter: " ++ name)
                 (Some (count_payload (length shown))) w)).
Proof.
  intros Hg. cbn zeta. unfold renderGallery. rewrite Hg.
  unfold bind at 1. by rewrite info_returns.
Qed.

Lemma click_opens_imap (imgs : list Image) :
  click_opens <$> imap gallery_item imgs = src <$> imgs.
Proof.
  apply list_eq. intros i.
  rewrite !list_lookup_fmap, list_lookup_imap.
  by destruct (imgs !! i).
Qed.
End Gallery.

(** X16. [renderGallery(f)] with a category [f] shows exactly the images of
    that category: the items are, in the order of the image list, one per
    image whose category is [f], each carrying the class
    [gallery-item f] and opening its own image; whatever the element held
    before is gone; and the count logged is the number of items shown. *)
Theorem renderGallery_shows_the_category (H : Host) (env : Env) (f : string)
    (g : PortfolioGallery) (old : list GalleryItem) (w : World) :
  gallery g = Some old ->
  f <> "all" ->
  exists items : list GalleryItem,
    renderGallery env (Some f) g w =
      Returned (set_gallery (Some items) g)
        (world_of (info env ("Rendering gallery with filter: " ++ f)
                     (Some (count_payload (length items))) w))
    /\ click_opens <$> items =
       src <$> List.filter (fun img => String.eqb (category img) f) (images g)
    /\ (forall item, item ∈ items -> className item = "gallery-item " ++ f)
    /\ (forall item, item ∈ items ->
          exists i img, images g !! i = Some img /\ category img = f
                        /\ click_opens item = src img).
Proof.
  intros Hg Hf.
  rewrite (renderGallery_unfold env (Some f) g old w Hg).
  cbn [default from_option id].
  destruct (String.eqb_spec f "all") as [|_]; [done|].
  set (shown := List.filter (fun img => String.eqb (category img) f) (images g)).
  assert (Hshown : forall i img, shown !! i = Some img ->
            category img = f /\ img ∈ images g).
  { intros i img Hi. apply list_elem_of_lookup_2, list_elem_of_In in Hi.
    apply filter_In in Hi as [Hin Hcat].
    split; [by apply String.eqb_eq|by apply list_elem_of_In]. }
  exists (imap gallery_item shown).
  split; [by rewrite length_imap|]. split; [apply click_opens_imap|]. split.
  - intros item (i & img & -> & Hi)%elem_of_lookup_imap_1.
    cbn. by destruct (Hshown i img Hi) as [-> _].
  - intros item (i & img & -> & Hi)%elem_of_lookup_imap_1.
    destruct (Hshown i img Hi) as [Hcat (j & Hj)%list_elem_of_lookup_1].
    by exists j, img.
Qed.

Lemma renderGallery_shows_the_category_witness :
  exists items : list GalleryItem,
    value_of (renderGallery (H:=Sample.host) (Sample.env_at 1) (Some "branding")
                (site_gallery (Some [])) (Sample.fresh None)) =
      Some (set_gallery (Some items) (site_gallery (Some [])))
    /\ click_opens <$> items =
       ["c.jpg"; "i.jpg"; "n.jpg"; "q.jpg"; "t (2).jpg"; "v.jpg"; "aa.jpg"].
Proof.
  destruct (renderGallery_shows_the_category Sample.host (Sample.env_at 1) "branding"
              (site_gallery (Some [])) [] (Sample.fresh None) eq_refl)
    as (items & Hrun & Hopens & _); [done|].
  exists items. split; [by rewrite Hrun|exact Hopens].
Defined.

(** X17. Without a category, or with ['all'], [renderGallery] shows every
    image of the list, numbered from 1 in its alt text, and when the
    document has no [#portfolioGallery] element it does nothing at all,
    not even log. *)
Theorem renderGallery_shows_all_by_default (H : Host) (env : Env)
    (filter : option string) (g : PortfolioGallery) (w : World) :
  (filter = None \/ filter = Some "all") ->
  match gallery g with
  | None => renderGallery env filter g w = Returned g w
  | Some _ =>
      renderGallery env filter g w =
      Returned (set_gallery (Some (imap gallery_item (images g))) g)
        (world_of (info env "Rendering gallery with filter: all"
                     (Some (count_payload (length (images g)))) w))
  end.
Proof.
  intros Hfilter. destruct (gallery g) as [old|] eqn:Hg.
  - rewrite (renderGallery_unfold env filter g old w Hg).
    by destruct Hfilter as [-> | ->].
  - unfold renderGallery. by rewrite Hg.
Qed.

Lemma renderGallery_shows_all_by_default_witness :
  renderGallery (H:=Sample.host) (Sample.env_at 1) None (site_gallery None)
    (Sample.fresh None) =
  Returned (site_gallery None) (Sample.fresh None).
Proof.
  exact (renderGallery_shows_all_by_default Sample.host (Sample.env_at 1) None
           (site_gallery None) (Sample.fresh None) (or_introl eq_refl)).
Defined.

(** X18. Rendering replaces, it never accumulates: what the gallery shows
    after [renderGallery(filter)] depends on the image list and the filter
    only, not on what the element held, so rendering the same filter
    again shows the same items once more, not twice. *)
Theorem renderGallery_replaces (H : Host) (env env' : Env) (filter : option string)
    (g : PortfolioGallery) (old : list GalleryItem) (w : World) :
  gallery g = Some old ->
  exists (g1 g2 : PortfolioGallery) (w1 w2 : World),
    renderGallery env filter g w = Returned g1 w1
    /\ renderGallery env' filter g1 w1 = Returned g2 w2
    /\ g2 = g1
    /\ currentFilter g1 = currentFilter g.
Proof.
  intros Hg.
  rewrite (renderGallery_unfold env filter g old w Hg). cbn zeta.
  eexists _, _, _, _. split; [reflexivity|].
  split; [|split; [|reflexivity]].
  - erewrite renderGallery_unfold by reflexivity. reflexivity.
  - reflexivity.
Qed.

Lemma renderGallery_replaces_witness :
  exists (g1 g2 : PortfolioGallery) (w1 w2 : World),
    renderGallery (H:=Sample.host) (Sample.env_at 1) (Some "web")
      (site_gallery (Some [])) (Sample.fresh None) = Returned g1 w1
    /\ renderGallery (H:=Sample.host) (Sample.env_at 2) (Some "web") g1 w1 =
       Returned g2 w2
    /\ g2 = g1
    /\ currentFilter g1 = currentFilter (site_gallery (Some [])).
Proof.
  exact (renderGallery_replaces Sample.host (Sample.env_at 1) (Sample.env_at 2)
           (Some "web") (site_gallery (Some [])) [] (Sample.fresh None) eq_refl).
Defined.

(** X19. On the site's image list a filter that is none of ['all'],
    ['design'], ['web'], ['branding'] empties the gallery and logs a count
    of 0. *)
Theorem unknown_category_empties_the_gallery (H : Host) (env : Env) (f : string)
    (old : list GalleryItem) (w : World) :
  f ∉ ["all"; "design"; "web"; "branding"] ->
  renderGallery env (Some f) (site_gallery (Some old)) w =
  Returned (site_gallery (Some []))
    (world_of (info env ("Rendering gallery with filter: " ++ f)
                 (Some (count_payload 0)) w)).
Proof.
  intros Hf.
  assert (Hcats : Forall (fun img => category img ∈ ["design"; "web"; "branding"])
                    site_images).
  { apply (bool_decide_unpack _). vm_compute. reflexivity. }
  assert (Hnone : List.filter (fun img => String.eqb (category img) f) site_images = []).
  { induction Hcats as [|img imgs Hcat _ IH]; [done|].
    cbn [List.filter]. destruct (String.eqb_spec (category img) f) as [<-|_]; [|done].
    destruct Hf. by right. }
  rewrite (renderGallery_unfold env (Some f) (site_gallery (Some old)) old w eq_refl).
  cbn [default from_option id].
  destruct (String.eqb_spec f "all") as [->|_].
  { destruct Hf. by left. }
  change (images (site_gallery (Some old))) with site_images.
  by rewrite Hnone.
Qed.

Lemma unknown_category_empties_the_gallery_witness :
  gallery <$> value_of (renderGallery (H:=Sample.host) (Sample.env_at 1)
                          (Some "photo") (site_gallery (Some [])) (Sample.fresh None)) =
  Some (Some []).
Proof.
  rewrite (unknown_category_empties_the_gallery Sample.host (Sample.env_at 1) "photo"
             [] (Sample.fresh None)).
  - reflexivity.
  - apply (bool_decide_eq_false_1 ("photo" ∈ ["all"; "design"; "web"; "branding"])).
    reflexivity.
Defined.

Section FilterClick.
Context {H : Host}.

Lemma renderGallery_returns env filter g w :
  exists g' w', renderGallery env filter g w = Returned g' w'.
Proof.
  destruct (gallery g) as [old|] eqn:Hg.
  - rewrite (renderGallery_unfold env filter g old w Hg). eauto.
  - unfold renderGallery. rewrite Hg. eauto.
Qed.

(** The buttons after a click on the one at index [i]. *)
Lemma filter_click_run env1 env2 i buttons btn g w :
  buttons !! i = Some btn ->
  exists (g' : PortfolioGallery) (w1 : World),
    renderGallery env1 (dataset_filter btn) g w = Returned g' w1
    /\ filter_click env1 env2 i buttons g w =
       Returned
         (alter (fun b => mkFilterButton (dataset_filter b)
                            (classList_add "active" (classList b))) i
            ((fun b => mkFilterButton (dataset_filter b)
                         (classList_remove "active" (classList b))) <$> buttons),
          g')
         (world_of (info env2
                      ("Filter applied: " ++ default "undefined" (dataset_filter btn))
                      None w1)).
Proof.
  intros Hbtn. unfold filter_click. rewrite Hbtn.
  destruct (renderGallery_returns env1 (dataset_filter btn) g w) as (g' & w1 & Hrender).
  exists g', w1. split; [exact Hrender|].
  unfold bind at 1. rewrite Hrender.
  unfold bind at 1. by rewrite info_returns.
Qed.
End FilterClick.

(** X20. A click on a filter button leaves that button, and no other,
    with the class [active]; every other class and every [data-filter]
    stays as it was; the gallery is rendered with the button's filter and
    "Filter applied: ..." is logged after the rendering. *)
Theorem filter_click_marks_one_button (H : Host) (env1 env2 : Env) (i : nat)
    (buttons : list FilterButton) (btn : FilterButton) (g : PortfolioGallery)
    (w : World) :
  buttons !! i = Some btn ->
  exists (buttons' : list FilterButton) (g' : PortfolioGallery) (w1 : World),
    renderGallery env1 (dataset_filter btn) g w = Returned g' w1
    /\ filter_click env1 env2 i buttons g w =
       Returned (buttons', g')
         (world_of (info env2
                      ("Filter applied: " ++ default "undefined" (dataset_filter btn))
                      None w1))
    /\ length buttons' = length buttons
    /\ forall (j : nat) (b b' : FilterButton),
         buttons !! j = Some b -> buttons' !! j = Some b' ->
         ("active" ∈ classList b' <-> j = i)
         /\ dataset_filter b' = dataset_filter b
         /\ forall t, t <> "active" -> (t ∈ classList b' <-> t ∈ classList b).
Proof.
  intros Hbtn.
  destruct (filter_click_run env1 env2 i buttons btn g w Hbtn)
    as (g' & w1 & Hrender & Hclick).
  eexists _, g', w1. split; [exact Hrender|]. split; [exact Hclick|].
  split; [by rewrite length_alter, length_fmap|].
  intros j b b' Hb Hb'.
  destruct (decide (i = j)) as [<-|Hne].
  - rewrite list_lookup_alter_eq, list_lookup_fmap, Hb in Hb'. cbn in Hb'.
    injection Hb' as <-. cbn. split; [|split; [done|]].
    + rewrite elem_of_classList_add. tauto.
    + intros t Ht. rewrite elem_of_classList_add, elem_of_classList_remove. tauto.
  - rewrite list_lookup_alter_ne, list_lookup_fmap, Hb in Hb' by done. cbn in Hb'.
    injection Hb' as <-. cbn. split; [|split; [done|]].
    + rewrite elem_of_classList_remove. split; [tauto|]. intros ->. done.
    + intros t Ht. rewrite elem_of_classList_remove. tauto.
Qed.

Lemma filter_click_marks_one_button_witness :
  let buttons := [mkFilterButton (Some "all") ["filter-btn"; "active"];
                  mkFilterButton (Some "web") ["filter-btn"]] in
  exists (buttons' : list FilterButton) (g' : PortfolioGallery) (w' : World),
    filter_click (H:=Sample.host) (Sample.env_at 1) (Sample.env_at 2) 1 buttons
      (site_gallery (Some [])) (Sample.fresh None) = Returned (buttons', g') w'
    /\ length buttons' = 2%nat.
Proof.
  intros buttons.
  destruct (filter_click_marks_one_button Sample.host (Sample.env_at 1)
              (Sample.env_at 2) 1 buttons (mkFilterButton (Some "web") ["filter-btn"])
              (site_gallery (Some [])) (Sample.fresh None) eq_refl)
    as (buttons' & g' & w1 & _ & Hclick & Hlen & _).
  eexists buttons', g', _. split; [exact Hclick|exact Hlen].
Defined.

(** X21. A filter button without a [data-filter] attribute shows every
    image: its click renders the gallery with the default filter ['all']
    and then logs "Filter applied: undefined". *)
Theorem filter_click_without_data_filter (H : Host) (env1 env2 : Env) (i : nat)
    (buttons : list FilterButton) (btn : FilterButton) (g : PortfolioGallery)
    (old : list GalleryItem) (w : World) :
  buttons !! i = Some btn ->
  dataset_filter btn = None ->
  gallery g = Some old ->
  exists buttons' : list FilterButton,
    filter_click env1 env2 i buttons g w =
    Returned (buttons', set_gallery (Some (imap gallery_item (images g))) g)
      (world_of (info env2 "Filter applied: undefined" None
         (world_of (info env1 "Rendering gallery with filter: all"
                      (Some (count_payload (length (images g)))) w)))).
Proof.
  intros Hbtn Hnone Hg.
  destruct (filter_click_run env1 env2 i buttons btn g w Hbtn)
    as (g' & w1 & Hrender & Hclick).
  rewrite Hnone in Hrender, Hclick.
  rewrite (renderGallery_unfold env1 None g old w Hg) in Hrender.
  injection Hrender as <- <-.
  eexists. exact Hclick.
Qed.

Lemma filter_click_without_data_filter_witness :
  message <$> logs (this (world_of
    (filter_click (H:=Sample.host) (Sample.env_at 1) (Sample.env_at 2) 0
       [mkFilterButton None ["filter-btn"]] (site_gallery (Some []))
       (Sample.fresh None)))) =
  ["Rendering gallery with filter: all"; "Filter applied: undefined"].
Proof.
  destruct (filter_click_without_data_filter Sample.host (Sample.env_at 1)
              (Sample.env_at 2) 0 [mkFilterButton None ["filter-btn"]]
              (mkFilterButton None ["filter-btn"]) (site_gallery (Some [])) []
              (Sample.fresh None) eq_refl eq_refl eq_refl) as [buttons' Hclick].
  rewrite Hclick. reflexivity.
Defined.

(** * Scroll listeners *)

Lemma Qltb_lt (x y : Q) : Qltb x y = true <-> (x < y)%Q.
Proof.
  unfold Qltb. rewrite negb_true_iff. split.
  - intros Hn. apply Qnot_le_lt. intros Hle.
    apply Qle_bool_iff in Hle. congruence.
  - intros Hlt. destruct (Qle_bool y x) eqn:Hle; [|done].
    apply Qle_bool_iff in Hle. destruct (Qlt_not_le _ _ Hlt Hle).
Qed.

Lemma Qltb_ge (x y : Q) : Qltb x y = false <-> (y <= x)%Q.
Proof.
  unfold Qltb. rewrite negb_false_iff. apply Qle_bool_iff.
Qed.

Section ScrollDepth.
Context {H : Host} {D : Doubles}.

(** One scroll event at a finite percentage above the depth reached. *)
Lemma scroll_depth_deeper env q m w :
  (inject_Z m < q)%Q ->
  scroll_depth env (Finite q) (Depth m) w =
  if (Z.rem (Qfloor q) 25 =? 0) && (0 <? Qfloor q)
  then Returned (Depth (Qfloor q))
         (world_of (info env ("Scroll depth: " ++
                              Number_toString (inject_Z (Qfloor q)) ++ "%") None w))
  else Returned (Depth (Qfloor q)) w.
Proof.
  intros Hlt%Qltb_lt. unfold scroll_depth. rewrite Hlt.
  destruct (_ && _); [|done].
  unfold bind. by rewrite info_returns.
Qed.

(** One scroll event at a finite percentage not above it. *)
Lemma scroll_depth_not_deeper env q m w :
  (q <= inject_Z m)%Q ->
  scroll_depth env (Finite q) (Depth m) w = Returned (Depth m) w.
Proof. intros Hle%Qltb_ge. unfold scroll_depth. by rewrite Hle. Qed.

Lemma floor_above m q : (inject_Z m < q)%Q -> m <= Qfloor q.
Proof.
  intros Hlt. rewrite <- (Qfloor_Z m).
  by apply Qfloor_resp_le, Qlt_le_weak.
Qed.
End ScrollDepth.

(** X22. The scroll listener of [trackScrollDepth] always returns, never
    lowers [maxScroll], and logs at most one entry, and only when the new
    [maxScroll] is a positive multiple of 25: the entry is "Scroll depth:
    N%" for that very value. *)
Theorem scroll_depth_logs_only_milestones (H : Host) (D : Doubles) (env : Env)
    (scrollPercentage : double) (maxScroll : depth) (w : World) :
  exists (maxScroll' : depth) (w' : World),
    scroll_depth env scrollPercentage maxScroll w = Returned maxScroll' w'
    /\ depth_le maxScroll maxScroll'
    /\ (w' = w
        \/ exists n k : Z,
             maxScroll' = Depth n /\ 0 < n /\ n = 25 * k
             /\ w' = world_of (info env ("Scroll depth: " ++
                                         Number_toString (inject_Z n) ++ "%") None w)).
Proof.
  destruct maxScroll as [m|].
  2: { exists DepthInfinity, w. by destruct scrollPercentage; cbn; auto. }
  destruct scrollPercentage as [q| | |].
  2: { exists DepthInfinity, w. cbn. auto. }
  2,3: exists (Depth m), w; cbn; split; [done|]; split; [lia|auto].
  destruct (Qlt_le_dec (inject_Z m) q) as [Hlt|Hle].
  - rewrite (scroll_depth_deeper env q m w Hlt).
    pose proof (floor_above m q Hlt) as Hfloor.
    destruct (Z.eqb_spec (Z.rem (Qfloor q) 25) 0) as [Hrem|_]; cbn [andb].
    + destruct (Z.ltb_spec 0 (Qfloor q)) as [Hpos|_].
      * eexists _, _. split; [reflexivity|]. split; [done|]. right.
        exists (Qfloor q), (Z.quot (Qfloor q) 25).
        split; [done|]. split; [done|]. split; [|done].
        pose proof (Z.quot_rem' (Qfloor q) 25). lia.
      * eexists _, _. split; [reflexivity|]. split; [done|]. by left.
    + eexists _, _. split; [reflexivity|]. split; [done|]. by left.
  - rewrite (scroll_depth_not_deeper env q m w Hle).
    eexists _, _. split; [reflexivity|]. split; [cbn; lia|]. by left.
Qed.

(** X23. The same milestone is logged again and again: while the
    percentage stays strictly between a milestone [m] (a positive multiple
    of 25) and [m + 1], every scroll event finds it above [maxScroll = m],
    logs "Scroll depth: m%" once more and leaves [maxScroll] at [m]. *)
Theorem scroll_depth_repeats_a_milestone (H : Host) (D : Doubles) (env : Env)
    (q : Q) (w : World) :
  let m := Qfloor q in
  Z.rem m 25 = 0 ->
  0 < m ->
  (inject_Z m < q)%Q ->
  scroll_depth env (Finite q) (Depth m) w =
  Returned (Depth m)
    (world_of (info env ("Scroll depth: " ++ Number_toString (inject_Z m) ++ "%")
                 None w)).
Proof.
  intros m Hrem Hpos Hlt.
  rewrite (scroll_depth_deeper env q m w Hlt). fold m.
  rewrite Hrem. cbn. by destruct (Z.ltb_spec 0 m); [|lia].
Qed.

Lemma scroll_depth_repeats_a_milestone_witness :
  let once := world_of (scroll_depth (H:=Sample.host) (D:=Exact.doubles)
                          (Sample.env_at 1) (Finite (101 # 2)) (Depth 50)
                          (Sample.fresh None)) in
  scroll_depth (H:=Sample.host) (D:=Exact.doubles) (Sample.env_at 2)
    (Finite (101 # 2)) (Depth 50) once =
  Returned (Depth 50)
    (world_of (info (H:=Sample.host) (Sample.env_at 2) "Scroll depth: 50%" None once)).
Proof.
  intros once.
  exact (scroll_depth_repeats_a_milestone Sample.host Exact.doubles (Sample.env_at 2)
           (101 # 2) once eq_refl eq_refl eq_refl).
Defined.

(** X24. A milestone that is jumped over is never logged: when a scroll
    event takes [maxScroll] to a value [n] that is no multiple of 25,
    nothing is logged then, and nothing is logged by any later event whose
    percentage is at most [n], so scrolling back through 25%, 50% or 75%
    does not log them either. *)
Theorem skipped_milestones_are_never_logged (H : Host) (D : Doubles) (env : Env)
    (q : Q) (m : Z) (later : list (Env * double)) (w : World) :
  (inject_Z m < q)%Q ->
  Z.rem (Qfloor q) 25 <> 0 ->
  Forall (fun ev => exists q', ev.2 = Finite q' /\ (q' <= inject_Z (Qfloor q))%Q) later ->
  scroll_depths ((env, Finite q) :: later) (Depth m) w = (Depth (Qfloor q), w).
Proof.
  intros Hlt Hrem Hlater. cbn [scroll_depths].
  rewrite (scroll_depth_deeper env q m w Hlt).
  destruct (Z.eqb_spec (Z.rem (Qfloor q) 25) 0) as [|_]; [done|]. cbn [andb].
  induction Hlater as [|[env' pct] later (q' & Hpct & Hle) _ IH]; [done|].
  cbn in Hpct. subst pct. cbn [scroll_depths].
  by rewrite (scroll_depth_not_deeper env' q' (Qfloor q) w Hle).
Qed.

Lemma skipped_milestones_are_never_logged_witness :
  scroll_depths (H:=Sample.host) (D:=Exact.doubles)
    [(Sample.env_at 1, Finite (61 # 2)); (Sample.env_at 2, Finite 25);
     (Sample.env_at 3, Finite (30 # 1))]
    (Depth 20) (Sample.fresh None) =
  (Depth 30, Sample.fresh None).
Proof.
  apply (skipped_milestones_are_never_logged Sample.host Exact.doubles
           (Sample.env_at 1) (61 # 2) 20
           [(Sample.env_at 2, Finite 25); (Sample.env_at 3, Finite (30 # 1))]).
  - reflexivity.
  - discriminate.
  - repeat constructor.
    + exists 25%Q. split; [reflexivity|]. discriminate.
    + exists (30 # 1). split; [reflexivity|]. discriminate.
Defined.

(** X25. A percentage of [Infinity], which line 463 yields in a document
    of height 0, sets [maxScroll] to [Infinity] without logging, and after
    that no scroll event, whatever its percentage, logs or changes
    anything. *)
Theorem infinite_percentage_silences_the_depth (H : Host) (D : Doubles) (env : Env)
    (m : Z) (later : list (Env * double)) (w : World) :
  scroll_depths ((env, PosInfinity) :: later) (Depth m) w = (DepthInfinity, w).
Proof.
  cbn [scroll_depths scroll_depth]. unfold ret.
  induction later as [|[env' pct] later IH]; [done|].
  cbn [scroll_depths]. by destruct pct.
Qed.

Lemma classList_add_NoDup token classes :
  NoDup classes -> NoDup (classList_add token classes).
Proof.
  intros Hnd. unfold classList_add. case_bool_decide as Hin; [done|].
  apply NoDup_app. split; [done|]. split; [|apply NoDup_singleton].
  intros t Ht ->%list_elem_of_singleton. done.
Qed.

Lemma classList_remove_NoDup token classes :
  NoDup classes -> NoDup (classList_remove token classes).
Proof.
  intros Hnd. unfold classList_remove.
  apply NoDup_ListNoDup, List.NoDup_filter. by apply NoDup_ListNoDup.
Qed.

(** X26. The two scroll thresholds.  After [handleScroll] the navigation
    bar carries the class [scrolled] exactly when [scrollY] is above 100,
    and after the scroll listener of the back-to-top button the button
    carries [visible] exactly when [scrollY] is above 300, whatever
    classes they had; no other class is added or lost, no class is
    doubled, and a missing navigation bar stays missing. *)
Theorem scroll_thresholds (scrollY : Q) (classes : list string) :
  (exists classes',
      handleScroll scrollY (Some classes) = Some classes'
      /\ ("scrolled" ∈ classes' <-> (100 < scrollY)%Q)
      /\ (forall t, t <> "scrolled" -> (t ∈ classes' <-> t ∈ classes))
      /\ (NoDup classes -> NoDup classes'))
  /\ handleScroll scrollY None = None
  /\ ("visible" ∈ backToTop_scroll scrollY classes <-> (300 < scrollY)%Q)
  /\ (forall t, t <> "visible" ->
        (t ∈ backToTop_scroll scrollY classes <-> t ∈ classes))
  /\ (NoDup classes -> NoDup (backToTop_scroll scrollY classes)).
Proof.
  assert (Hgen : forall (limit : Q) (token : string),
    let classes' := if Qltb limit scrollY then classList_add token classes
                    else classList_remove token classes in
    (token ∈ classes' <-> (limit < scrollY)%Q)
    /\ (forall t, t <> token -> (t ∈ classes' <-> t ∈ classes))
    /\ (NoDup classes -> NoDup classes')).
  { intros limit token. cbn zeta.
    destruct (Qltb limit scrollY) eqn:Hlt.
    - apply Qltb_lt in Hlt. split; [|split].
      + rewrite elem_of_classList_add. tauto.
      + intros t Ht. rewrite elem_of_classList_add. tauto.
      + apply classList_add_NoDup.
    - apply Qltb_ge in Hlt. split; [|split].
      + rewrite elem_of_classList_remove. split; [tauto|].
        intros Hgt. destruct (Qlt_not_le _ _ Hgt Hlt).
      + intros t Ht. rewrite elem_of_classList_remove. tauto.
      + apply classList_remove_NoDup. }
  split; [|split].
  - destruct (Hgen 100%Q "scrolled") as (Hin & Hother & Hnd).
    unfold handleScroll. destruct (Qltb 100 scrollY); eexists; (split; [reflexivity|]); auto.
  - unfold handleScroll. by destruct (Qltb 100 scrollY).
  - apply (Hgen 300%Q "visible").
Qed.

Section ActiveLink.
Implicit Types (links : list NavLink) (sections : list PageSection).

(** What [activate_links] does to the link at an index. *)
Lemma activate_links_lookup section links i link :
  links !! i = Some link ->
  exists link',
    activate_links section links !! i = Some link'
    /\ href link' = href link
    /\ ("active" ∈ link_classes link' <-> href link = Some ("#" ++ sectionId section))
    /\ (forall t, t <> "active" -> (t ∈ link_classes link' <-> t ∈ link_classes link)).
Proof.
  intros Hlink. unfold activate_links.
  rewrite list_lookup_fmap, Hlink. cbn.
  eexists. split; [reflexivity|].
  case_bool_decide as Hhref; cbn.
  - split; [done|]. split.
    + rewrite elem_of_classList_add. tauto.
    + intros t Ht. rewrite elem_of_classList_add, elem_of_classList_remove. tauto.
  - split; [done|]. split.
    + rewrite elem_of_classList_remove. tauto.
    + intros t Ht. rewrite elem_of_classList_remove. tauto.
Qed.

(** Whatever the sections, a link keeps its [href] and every class but
    [active]. *)
Lemma updateActiveLink_keeps pos sections : forall links i link,
  links !! i = Some link ->
  exists link',
    updateActiveLink pos sections links !! i = Some link'
    /\ href link' = href link
    /\ (forall t, t <> "active" -> (t ∈ link_classes link' <-> t ∈ link_classes link)).
Proof.
  unfold updateActiveLink.
  induction sections as [|section sections IH]; intros links i link Hlink; cbn [foldl].
  - exists link. done.
  - destruct (section_contains pos section).
    + destruct (activate_links_lookup section links i link Hlink)
        as (link1 & Hlink1 & Hhref1 & _ & Hother1).
      destruct (IH _ i link1 Hlink1) as (link' & Hlink' & Hhref' & Hother').
      exists link'. split; [done|]. split; [congruence|].
      intros t Ht. rewrite Hother', Hother1 by done. done.
    + by apply IH.
Qed.

Lemma updateActiveLink_none pos sections links :
  Forall (fun section => section_contains pos section = false) sections ->
  updateActiveLink pos sections links = links.
Proof.
  unfold updateActiveLink. intros Hnone. revert links.
  induction Hnone as [|section sections Hsec _ IH]; intros links; cbn [foldl]; [done|].
  by rewrite Hsec.
Qed.
End ActiveLink.

(** X27. The link highlighted while scrolling.  When no section contains
    the scroll position, the listener of [updateActiveLink] changes no
    link.  Otherwise the last section that contains it decides: a link is
    [active] afterwards exactly when its [href] is [#] followed by the id
    of that section, and every link keeps its [href] and its other
    classes. *)
Theorem updateActiveLink_follows_the_last_section (scrollPosition : Q)
    (before after : list PageSection) (section : PageSection)
    (navLinks : list NavLink) :
  (Forall (fun s => section_contains scrollPosition s = false) (before ++ section :: after) ->
   updateActiveLink scrollPosition (before ++ section :: after) navLinks = navLinks)
  /\
  (section_contains scrollPosition section = true ->
   Forall (fun s => section_contains scrollPosition s = false) after ->
   forall (i : nat) (link : NavLink),
     navLinks !! i = Some link ->
     exists link' : NavLink,
       updateActiveLink scrollPosition (before ++ section :: after) navLinks !! i
         = Some link'
       /\ href link' = href link
       /\ ("active" ∈ link_classes link' <->
           href link = Some ("#" ++ sectionId section))
       /\ (forall t, t <> "active" ->
             (t ∈ link_classes link' <-> t ∈ link_classes link))).
Proof.
  split; [apply updateActiveLink_none|].
  intros Hin Hafter i link Hlink.
  destruct (updateActiveLink_keeps scrollPosition before navLinks i link Hlink)
    as (link0 & Hlink0 & Hhref0 & Hother0).
  destruct (activate_links_lookup section _ i link0 Hlink0)
    as (link' & Hlink' & Hhref' & Hactive & Hother').
  exists link'. split; [|split; [congruence|split]].
  - unfold updateActiveLink in *.
    rewrite foldl_app. cbn [foldl]. rewrite Hin.
    fold (updateActiveLink scrollPosition after
            (activate_links section (foldl (fun links s =>
               if section_contains scrollPosition s
               then activate_links s links else links) navLinks before))).
    by rewrite updateActiveLink_none.
  - by rewrite Hactive, Hhref0.
  - intros t Ht. rewrite Hother', Hother0 by done. done.
Qed.

Lemma updateActiveLink_follows_the_last_section_witness :
  let home := mkPageSection 0 600 "home" in
  let work := mkPageSection 600 900 "portfolio" in
  let links := [mkNavLink (Some "#home") ["nav-link"; "active"];
                mkNavLink (Some "#portfolio") ["nav-link"]] in
  exists link' : NavLink,
    updateActiveLink (700 # 1) ([home] ++ work :: []) links !! 1%nat = Some link'
    /\ href link' = Some "#portfolio"
    /\ ("active" ∈ link_classes link' <-> Some "#portfolio" = Some ("#" ++ "portfolio"))
    /\ (forall t, t <> "active" -> (t ∈ link_classes link' <-> t ∈ ["nav-link"])).
Proof.
  intros home work links.
  exact (proj2 (updateActiveLink_follows_the_last_section (700 # 1) [home] []
                  work links) eq_refl (Forall_nil_2 _) 1%nat
           (mkNavLink (Some "#portfolio") ["nav-link"]) eq_refl).
Defined.

(** * The parallax effect *)

Section Parallax.
Context {D : Doubles}.

Lemma parallax_step_throttled ev a : throttled a -> throttled (parallax_step ev a).
Proof.
  unfold throttled. intros Ha. destruct ev as [|scrollY]; cbn.
  - unfold requestTick. destruct (ticking (effect a)) eqn:Htick; cbn.
    + by rewrite Htick.
    + by rewrite Ha.
  - rewrite Ha. destruct (ticking (effect a)) eqn:Htick; cbn; [done|].
    by rewrite Htick.
Qed.

Lemma parallax_run_throttled events : forall a,
  throttled a -> throttled (parallax_run events a).
Proof.
  unfold parallax_run.
  induction events as [|ev events IH]; intros a Ha; cbn [foldl]; [done|].
  by apply IH, parallax_step_throttled.
Qed.

Lemma requestTick_again n a :
  ticking (effect a) = true ->
  parallax_run (replicate n scroll_event) a = a.
Proof.
  intros Htick. unfold parallax_run.
  assert (Hsame : requestTick a = a).
  { unfold requestTick. by rewrite Htick. }
  induction n as [|n IH]; cbn [replicate foldl parallax_step]; [done|].
  by rewrite Hsame.
Qed.
End Parallax.

(** X28. Scroll events are throttled to one update per frame: from the
    construction of the effect on, whatever scroll events and animation
    frames follow, at most one [update] callback is waiting for the next
    frame, and one is waiting exactly while [ticking] is set. *)
Theorem at_most_one_update_is_pending (H : Host) (D : Doubles) (env : Env)
    (found : Elements) (w : World) (events : list ParallaxEvent) :
  exists (a0 : Animation) (w' : World),
    new_ParallaxEffect env found w = Returned a0 w'
    /\ (pending (parallax_run events a0) <= 1)%nat
    /\ (ticking (effect (parallax_run events a0)) = true <->
        pending (parallax_run events a0) = 1%nat).
Proof.
  unfold new_ParallaxEffect, debug, bind.
  destruct (_log_returns env LDebug "Initializing parallax effect" None w) as [w' ->].
  eexists _, w'. split; [reflexivity|].
  assert (Hinv : throttled (parallax_run events
            {| effect := {| elements := found; scrollPosition := 0; ticking := false |};
               pending := 0 |})).
  { by apply parallax_run_throttled. }
  unfold throttled in Hinv. rewrite Hinv.
  destruct (ticking _); split; (lia || done).
Qed.

(** X29. Scroll events between two frames are coalesced: on an effect
    with no update pending, any number of scroll events (one at least)
    followed by a frame runs [update] exactly once, with the scroll offset
    of the frame, and leaves the effect ready for the next scroll event. *)
Theorem scroll_events_are_coalesced (D : Doubles) (n : nat) (scrollY : Q)
    (a : Animation) :
  ticking (effect a) = false ->
  pending a = 0%nat ->
  parallax_run (replicate (S n) scroll_event ++ [frame_event scrollY]) a =
  {| effect := update scrollY (effect a); pending := 0 |}
  /\ ticking (update scrollY (effect a)) = false
  /\ scrollPosition (update scrollY (effect a)) = scrollY.
Proof.
  intros Hidle Hnone. split; [|done].
  assert (Hfirst : requestTick a =
            {| effect := {| elements := elements (effect a);
                            scrollPosition := scrollPosition (effect a);
                            ticking := true |};
               pending := 1 |}).
  { unfold requestTick. by rewrite Hidle, Hnone. }
  unfold parallax_run. rewrite foldl_app. cbn [replicate foldl parallax_step].
  rewrite Hfirst.
  fold (parallax_run (replicate n scroll_event)
          {| effect := {| elements := elements (effect a);
                          scrollPosition := scrollPosition (effect a);
                          ticking := true |};
             pending := 1 |}).
  rewrite requestTick_again by done.
  reflexivity.
Qed.

Lemma scroll_events_are_coalesced_witness :
  let idle := {| effect := {| elements := mkElements (Some ∅) None None None None None None;
                              scrollPosition := 0; ticking := false |};
                 pending := 0 |} in
  parallax_run (D:=Exact.doubles)
    (replicate 3 scroll_event ++ [frame_event (120 # 1)]) idle =
  {| effect := update (D:=Exact.doubles) (120 # 1) (effect idle); pending := 0 |}
  /\ ticking (update (D:=Exact.doubles) (120 # 1) (effect idle)) = false
  /\ scrollPosition (update (D:=Exact.doubles) (120 # 1) (effect idle)) = 120 # 1.
Proof.
  intros idle.
  exact (scroll_events_are_coalesced Exact.doubles 2 (120 # 1) idle eq_refl eq_refl).
Defined.

(** * The gallery at start-up *)

Section GalleryInit.
Context {H : Host}.

Lemma _log_this_with_room env level msg d w :
  enabled (this w) = true ->
  Z.of_nat (length (logs (this w))) < maxLogs (this w) ->
  this (world_of (_log env level msg d w)) =
  set_logs (logs (this w) ++ [logEntry_of env level msg (default JNull d)]) (this w).
Proof.
  intros Hon Hroom. by rewrite _log_this, Hon, appended_with_room.
Qed.

Lemma renderGallery_all env g old w :
  gallery g = Some old ->
  renderGallery env None g w =
  Returned (set_gallery (Some (imap gallery_item (images g))) g)
    (world_of (info env "Rendering gallery with filter: all"
                 (Some (count_payload (length (images g)))) w)).
Proof. intros Hg. by rewrite (renderGallery_unfold env None g old w Hg). Qed.
End GalleryInit.

(** X30. [init()] of the gallery, on an enabled logger with room for three
    more entries and a clock that does not read 0 at the start, with the
    gallery element in the document: it shows every image and leaves in
    the log, in this order, the start of the timing [gallery-init], the
    rendering with the count of images, and the completion with the time
    between the two clock readings; no [gallery-init] mark stays
    pending. *)
Theorem gallery_init_logs_three_entries (H : Host) (C : nat) (env0 env1 env2 : Env)
    (g : PortfolioGallery) (old : list GalleryItem) (w : World) :
  enabled (this w) = true ->
  maxLogs (this w) = Z.of_nat C ->
  (length (logs (this w)) + 3 <= C)%nat ->
  performance_now env0 <> 0 ->
  gallery g = Some old ->
  exists w' : World,
    gallery_init env0 env1 env2 g w =
      Returned (set_gallery (Some (imap gallery_item (images g))) g) w'
    /\ logs (this w') =
       (logs (this w) ++
        [started_entry env0 "gallery-init";
         logEntry_of env1 LInfo "Rendering gallery with filter: all"
           (count_payload (length (images g)));
         completed_entry env2 "gallery-init"
           (Num (performance_now env2 - performance_now env0))])%list
    /\ performanceMarks (this w') !! "gallery-init" = None.
Proof.
  intros Hon Hmax Hroom Ht0 Hg.
  set (w1 := world_of (startPerformance env0 "gallery-init" w)).
  set (w2 := world_of (info env1 "Rendering gallery with filter: all"
                         (Some (count_payload (length (images g)))) w1)).
  assert (Hstart : startPerformance env0 "gallery-init" w = Returned tt w1).
  { subst w1. by destruct (startPerformance_returns env0 "gallery-init" w) as [? ->]. }
  assert (Hthis1 : this w1 =
    set_logs (logs (this w) ++ [started_entry env0 "gallery-init"])
      (set_performanceMarks
         (marks_set (performanceMarks (this w)) "gallery-init" (performance_now env0))
         (this w))).
  { subst w1. rewrite startPerformance_unfold, _log_this_with_room; [done|done|].
    cbn. lia. }
  assert (Hthis2 : this w2 =
    set_logs (logs (this w1) ++
              [logEntry_of env1 LInfo "Rendering gallery with filter: all"
                 (count_payload (length (images g)))]) (this w1)).
  { subst w2. unfold info. rewrite _log_this_with_room; [done|..].
    - by rewrite Hthis1.
    - rewrite Hthis1. cbn. rewrite length_app. cbn. lia. }
  assert (Hmark2 : performanceMarks (this w2) !! "gallery-init" =
                   Some (performance_now env0)).
  { rewrite Hthis2, Hthis1. cbn. unfold marks_set.
    destruct (performanceMarks (this w) !! "gallery-init"); cbn;
      apply lookup_insert_eq. }
  pose proof (endPerformance_unfold env2 "gallery-init" w2) as Hend.
  cbn zeta in Hend. unfold marks_get in Hend. rewrite Hmark2 in Hend.
  cbn [mark_truthy mark_to_number number_sub] in Hend.
  destruct (Z.eqb_spec (performance_now env0) 0) as [|_]; [done|].
  cbn [negb] in Hend.
  eexists. split.
  - unfold gallery_init. unfold bind at 1. rewrite Hstart.
    unfold bind at 1.
    rewrite (renderGallery_all env1 g old w1 Hg).
    fold w2. unfold bind at 1. rewrite Hend. reflexivity.
  - cbn -[_log]. rewrite _log_marks, _log_this_with_room.
    + split; [|apply lookup_delete_eq].
      rewrite Hthis2, Hthis1. cbn. by rewrite <- !app_assoc.
    + by rewrite Hthis2, Hthis1.
    + rewrite Hthis2, Hthis1. cbn. rewrite !length_app. cbn. lia.
Qed.

Lemma gallery_init_logs_three_entries_witness :
  exists w' : World,
    gallery_init (H:=Sample.host) (Sample.env_at 1500) (Sample.env_at 2000)
      (Sample.env_at 4256) (site_gallery (Some [])) (Sample.fresh None) =
      Returned (set_gallery (Some (imap gallery_item site_images))
                  (site_gallery (Some []))) w'
    /\ message <$> logs (this w') =
       ["Performance tracking started: gallery-init";
        "Rendering gallery with filter: all";
        "Performance: gallery-init completed in 2.76ms"].
Proof.
  destruct (gallery_init_logs_three_entries Sample.host 100%nat (Sample.env_at 1500)
              (Sample.env_at 2000) (Sample.env_at 4256) (site_gallery (Some [])) []
              (Sample.fresh None) eq_refl eq_refl)
    as (w' & Hrun & Hlogs & _); [cbn; lia|done|done|].
  exists w'. split; [exact Hrun|]. rewrite Hlogs. reflexivity.
Defined.
